(** * kyoko: verification of [src/config.py]

    A shallow embedding of the configuration tool [config.py] (the classes
    [UsersConfig] and [XrayConfig], the commands [client], [connstr] and
    [generate], and the argument parser it declares), together with the
    fragments of the Python standard library the tool runs on: [json.dumps]
    and [json.loads], [base64.b64encode], [str.format], [int], the regular
    expression of [connstr] and the option handling of [argparse].

    Modelling conventions.
    - A Python [str] is a [string]: a sequence of code points below 256.
      Text containing code points from 256 on is outside the model.
    - A JSON document is a [json] value; a Python [dict] is an association
      list in insertion order whose keys are pairwise distinct ([wf]).
      JSON numbers with a fraction or an exponent (Python floats) are outside
      the model: reading one yields the outcome [Beyond].
    - The outside world (the three configuration files, the templates, the
      console and the random source) is a record [world]; the commands run in
      a state-and-exception monad over it and log every file access and every
      console operation in a trace.
    - Limits of the interpreter (recursion depth, memory) are not modelled.
      [int] is modelled without the interpreter's cap on the number of
      digits of a conversion ([Py.default_max_str_digits], 4300 unless
      configured otherwise); the theorems about a number typed at a prompt
      bound the length of the typed text by it, so that they hold with the
      cap as well as without.  A field number of [str.format] is compared
      with the largest index of a 64-bit build. *)

From Stdlib Require Import Decimal DecimalString DecimalN DecimalFacts.
From Stdlib Require Import String Ascii ZArith NArith Bool Lia Arith.
From Stdlib Require Import List Permutation.
Import ListNotations.
Local Open Scope string_scope.

(** ** Text *)

Module Text.

Definition code (c : ascii) : N := N_of_ascii c.
Definition chr (n : N) : ascii := ascii_of_N n.

Definition in_range (lo hi : N) (c : ascii) : bool :=
    (N.leb lo (code c) && N.leb (code c) hi)%bool.

Definition is_digit (c : ascii) : bool := in_range 48 57 c.

Fixpoint str_all (p : ascii -> bool) (s : string) : bool :=
    match s with
    | EmptyString => true
    | String c r => (p c && str_all p r)%bool
    end.

Fixpoint str_rev_onto (s acc : string) : string :=
    match s with
    | EmptyString => acc
    | String c r => str_rev_onto r (String c acc)
    end.

Definition str_rev (s : string) : string := str_rev_onto s EmptyString.

Fixpoint spaces (n : nat) : string :=
    match n with
    | O => EmptyString
    | S k => String " " (spaces k)
    end.

(** [sep.join(parts)] *)
Fixpoint join (sep : string) (parts : list string) : string :=
    match parts with
    | [] => EmptyString
    | [p] => p
    | p :: ps => p ++ sep ++ join sep ps
    end.

(** [needle in hay] *)
Fixpoint contains (needle hay : string) : bool :=
    (prefix needle hay ||
     match hay with
     | EmptyString => false
     | String _ r => contains needle r
     end)%bool.

Definition is_ascii_char (c : ascii) : bool := N.ltb (code c) 128.
Definition is_ascii (s : string) : bool := str_all is_ascii_char s.

Definition hex_digit (n : N) : ascii :=
    if N.ltb n 10 then chr (48 + n) else chr (87 + n).

Definition hex_value (c : ascii) : option N :=
    if in_range 48 57 c then Some (code c - 48)%N
    else if in_range 97 102 c then Some (code c - 87)%N
    else if in_range 65 70 c then Some (code c - 55)%N
    else None.

(** Two lower-case hexadecimal digits of a byte. *)
Definition hex2 (c : ascii) : string :=
    String (hex_digit (code c / 16)) (String (hex_digit (code c mod 16)) EmptyString).

End Text.

(** ** JSON values and Python container operations *)

Inductive exn : Type :=
| KeyError | IndexError | TypeError | ValueError | AttributeError
| JSONDecodeError | FileNotFoundError | EOFError | SystemExit.

(** Outcome of a Python computation: a value, a raised exception, or
    behaviour outside the modelled fragment. *)
Inductive outcome (A : Type) : Type :=
| Ret (a : A)
| Raise (e : exn)
| Beyond.
Arguments Ret {A} a.
Arguments Raise {A} e.
Arguments Beyond {A}.

Module Json.

Unset Elimination Schemes.
Inductive json : Type :=
  | JNull
  | JBool (b : bool)
  | JInt (z : Z)
  | JStr (s : string)
  | JArr (l : list json)
  | JObj (d : list (string * json)).
Set Elimination Schemes.

Definition dict := list (string * json).

(** [d.get(k)]: the value stored under [k]. *)
Fixpoint dict_get (k : string) (d : dict) : option json :=
    match d with
    | [] => None
    | (k', v) :: r => if String.eqb k k' then Some v else dict_get k r
    end.

(** [d[k] = v]: overwrite in place, or insert at the end. *)
Fixpoint dict_set (k : string) (v : json) (d : dict) : dict :=
    match d with
    | [] => [(k, v)]
    | (k', v') :: r =>
        if String.eqb k k' then (k', v) :: r else (k', v') :: dict_set k v r
    end.

(** [del d[k]] on a dict that has [k]. *)
Fixpoint dict_del (k : string) (d : dict) : dict :=
    match d with
    | [] => []
    | (k', v') :: r =>
        if String.eqb k k' then r else (k', v') :: dict_del k r
    end.

Definition keys (d : dict) : list string := map fst d.

(** Representation invariant of Python dicts: distinct keys, at every
      depth. *)
Fixpoint wf (v : json) : Prop :=
    match v with
    | JArr l => (fix all (l : list json) : Prop :=
                   match l with [] => True | x :: r => wf x /\ all r end) l
    | JObj d => NoDup (map fst d) /\
                (fix all (d : dict) : Prop :=
                   match d with [] => True | (_, x) :: r => wf x /\ all r end) d
    | _ => True
    end.

(** [obj[key]] for a string key. *)
Definition getitem_str (v : json) (k : string) : outcome json :=
    match v with
    | JObj d => match dict_get k d with
                | Some x => Ret x
                | None => Raise KeyError
                end
    | _ => Raise TypeError
    end.

(** [obj[key] = x] for a string key. *)
Definition setitem_str (v : json) (k : string) (x : json) : outcome json :=
    match v with
    | JObj d => Ret (JObj (dict_set k x d))
    | _ => Raise TypeError
    end.

(** [del obj[key]] for a string key. *)
Definition delitem_str (v : json) (k : string) : outcome json :=
    match v with
    | JObj d => match dict_get k d with
                | Some _ => Ret (JObj (dict_del k d))
                | None => Raise KeyError
                end
    | _ => Raise TypeError
    end.

(** Python index normalisation: negative indices count from the end. *)
Definition norm_index (len : nat) (i : Z) : option nat :=
    if (0 <=? i)%Z then
      (if (i <? Z.of_nat len)%Z then Some (Z.to_nat i) else None)
    else
      (if (0 <=? Z.of_nat len + i)%Z then Some (Z.to_nat (Z.of_nat len + i)) else None).

Definition chars (s : string) : list json :=
    map (fun c => JStr (String c EmptyString)) (list_ascii_of_string s).

(** [obj[i]] for an integer index. *)
Definition getitem_int (v : json) (i : Z) : outcome json :=
    match v with
    | JArr l => match norm_index (length l) i with
                | Some n => match nth_error l n with
                            | Some x => Ret x
                            | None => Raise IndexError
                            end
                | None => Raise IndexError
                end
    | JStr s => match norm_index (String.length s) i with
                | Some n => match nth_error (chars s) n with
                            | Some x => Ret x
                            | None => Raise IndexError
                            end
                | None => Raise IndexError
                end
    | JObj _ => Raise KeyError
    | _ => Raise TypeError
    end.

Fixpoint remove_nth {A} (n : nat) (l : list A) : list A :=
    match l, n with
    | [], _ => []
    | _ :: r, O => r
    | x :: r, S k => x :: remove_nth k r
    end.

(** [del obj[i]] for an integer index. *)
Definition delitem_int (v : json) (i : Z) : outcome json :=
    match v with
    | JArr l => match norm_index (length l) i with
                | Some n => Ret (JArr (remove_nth n l))
                | None => Raise IndexError
                end
    | JObj _ => Raise KeyError
    | _ => Raise TypeError
    end.

(** [len(obj)] *)
Definition len (v : json) : outcome Z :=
    match v with
    | JArr l => Ret (Z.of_nat (length l))
    | JStr s => Ret (Z.of_nat (String.length s))
    | JObj d => Ret (Z.of_nat (length d))
    | _ => Raise TypeError
    end.

(** [obj.append(x)] *)
Definition append (v x : json) : outcome json :=
    match v with
    | JArr l => Ret (JArr (l ++ [x])%list)
    | _ => Raise AttributeError
    end.

(** The items [for x in obj] visits. *)
Definition iter (v : json) : outcome (list json) :=
    match v with
    | JArr l => Ret l
    | JStr s => Ret (chars s)
    | JObj d => Ret (map (fun kv => JStr (fst kv)) d)
    | _ => Raise TypeError
    end.

(** [str(obj)] as an f-string renders it, for the values whose rendering
      the model covers. *)
Definition to_str (v : json) : outcome string :=
    match v with
    | JNull => Ret "None"
    | JBool true => Ret "True"
    | JBool false => Ret "False"
    | JInt z => Ret (NilZero.string_of_int (Z.to_int z))
    | JStr s => Ret s
    | _ => Beyond
    end.

(** Whether [obj] can be used as a dict key. *)
Definition hashable (v : json) : bool :=
    match v with
    | JArr _ | JObj _ => false
    | _ => true
    end.

(** [obj[key]] for a key that is itself a loaded value. *)
Definition getitem (v k : json) : outcome json :=
    match k with
    | JStr s => getitem_str v s
    | JInt i => getitem_int v i
    | JBool b => getitem_int v (if b then 1 else 0)
    | JNull => match v with JObj _ => Raise KeyError | _ => Raise TypeError end
    | JArr _ | JObj _ => Raise TypeError
    end.

(** [del obj[key]] for a key that is itself a loaded value. *)
Definition delitem (v k : json) : outcome json :=
    match k with
    | JStr s => delitem_str v s
    | JInt i => delitem_int v i
    | JBool b => delitem_int v (if b then 1 else 0)
    | JNull => match v with JObj _ => Raise KeyError | _ => Raise TypeError end
    | JArr _ | JObj _ => Raise TypeError
    end.

Fixpoint replace_nth {A} (n : nat) (x : A) (l : list A) : list A :=
    match l, n with
    | [], _ => []
    | _ :: r, O => x :: r
    | y :: r, S k => y :: replace_nth k x r
    end.

(** [obj[i] = x] for an integer index. *)
Definition setitem_int (v : json) (i : Z) (x : json) : outcome json :=
    match v with
    | JArr l => match norm_index (length l) i with
                | Some n => Ret (JArr (replace_nth n x l))
                | None => Raise IndexError
                end
    | JObj _ => Beyond
    | _ => Raise TypeError
    end.

(** *** [json.dumps] *)

Definition dquote : ascii := Text.chr 34.
Definition newline : ascii := Text.chr 10.
Definition backslash : ascii := Text.chr 92.

(** One character of a string under [ensure_ascii=True]. *)
Definition escape_char (c : ascii) : string :=
    if Ascii.eqb c dquote then String backslash (String dquote EmptyString)
    else if Ascii.eqb c backslash then String backslash (String backslash EmptyString)
    else if Ascii.eqb c newline then String backslash "n"
    else if Ascii.eqb c (Text.chr 13) then String backslash "r"
    else if Ascii.eqb c (Text.chr 9) then String backslash "t"
    else if Ascii.eqb c (Text.chr 8) then String backslash "b"
    else if Ascii.eqb c (Text.chr 12) then String backslash "f"
    else if Text.in_range 32 126 c then String c EmptyString
    else String backslash "u00" ++ Text.hex2 c.

Fixpoint escape (s : string) : string :=
    match s with
    | EmptyString => EmptyString
    | String c r => escape_char c ++ escape r
    end.

(** [encode_basestring_ascii] *)
Definition encode_string (s : string) : string :=
    String dquote (escape s ++ String dquote EmptyString).

(** [int.__repr__] *)
Definition repr_int (z : Z) : string :=
    match z with
    | Zneg p => String "-" (NilEmpty.string_of_uint (N.to_uint (Npos p)))
    | _ => NilEmpty.string_of_uint (N.to_uint (Z.to_N z))
    end.

Fixpoint insert_item {A} (kv : string * A) (l : list (string * A)) : list (string * A) :=
    match l with
    | [] => [kv]
    | kv' :: r =>
        if String.leb (fst kv) (fst kv') then kv :: l else kv' :: insert_item kv r
    end.

(** [sorted(d.items())]: the items in increasing key order. *)
Fixpoint sort_items {A} (l : list (string * A)) : list (string * A) :=
    match l with
    | [] => []
    | kv :: r => insert_item kv (sort_items r)
    end.

Section Dumps.
(** The keyword arguments [indent] and [sort_keys]. *)
Variable indent : option nat.
Variable sort_keys : bool.

Definition item_separator : string :=
      match indent with Some _ => "," | None => ", " end.

Definition key_separator : string := ": ".

Definition newline_indent (level : nat) : string :=
      match indent with
      | Some n => String newline (Text.spaces (n * level))
      | None => EmptyString
      end.

Definition order {A} (l : list (string * A)) : list (string * A) :=
      if sort_keys then sort_items l else l.

Definition member (kv : string * string) : string :=
      encode_string (fst kv) ++ key_separator ++ snd kv.

Definition separator (level : nat) : string :=
      item_separator ++ newline_indent level.

(** [_iterencode], joined. *)
Fixpoint encode (level : nat) (v : json) : string :=
      match v with
      | JNull => "null"
      | JBool true => "true"
      | JBool false => "false"
      | JInt z => repr_int z
      | JStr s => encode_string s
      | JArr l =>
          match l with
          | [] => "[]"
          | _ => "[" ++ newline_indent (S level)
                 ++ Text.join (separator (S level)) (map (encode (S level)) l)
                 ++ newline_indent level ++ "]"
          end
      | JObj d =>
          match d with
          | [] => "{}"
          | _ => "{" ++ newline_indent (S level)
                 ++ Text.join (separator (S level))
                      (map member
                         (order (map (fun kv => (fst kv, encode (S level) (snd kv))) d)))
                 ++ newline_indent level ++ "}"
          end
      end.

Definition dumps (v : json) : string := encode 0 v.

(** What reading the text back yields: with [sort_keys], every dict in
        increasing key order. *)
Fixpoint norm (v : json) : json :=
      match v with
      | JArr l => JArr (map norm l)
      | JObj d => JObj (order (map (fun kv => (fst kv, norm (snd kv))) d))
      | _ => v
      end.

End Dumps.

(** *** [json.loads] *)

Inductive presult (A : Type) : Type :=
  | Parsed (a : A) (rest : string)
  | Malformed
  | Unsupported.
Arguments Parsed {A} a rest.
Arguments Malformed {A}.
Arguments Unsupported {A}.

Definition pmap {A B} (f : A -> B) (r : presult A) : presult B :=
    match r with
    | Parsed a rest => Parsed (f a) rest
    | Malformed => Malformed
    | Unsupported => Unsupported
    end.

Definition is_ws (c : ascii) : bool :=
    (Ascii.eqb c " " || Ascii.eqb c (Text.chr 9) || Ascii.eqb c newline
     || Ascii.eqb c (Text.chr 13))%bool.

Fixpoint skip_ws (s : string) : string :=
    match s with
    | String c r => if is_ws c then skip_ws r else s
    | EmptyString => s
    end.

Definition unescape (e : ascii) : option ascii :=
    if Ascii.eqb e dquote then Some dquote
    else if Ascii.eqb e backslash then Some backslash
    else if Ascii.eqb e "/" then Some "/"%char
    else if Ascii.eqb e "b" then Some (Text.chr 8)
    else if Ascii.eqb e "f" then Some (Text.chr 12)
    else if Ascii.eqb e "n" then Some newline
    else if Ascii.eqb e "r" then Some (Text.chr 13)
    else if Ascii.eqb e "t" then Some (Text.chr 9)
    else None.

Definition hex4 (h1 h2 h3 h4 : ascii) : option N :=
    match Text.hex_value h1, Text.hex_value h2, Text.hex_value h3, Text.hex_value h4 with
    | Some a, Some b, Some c, Some d => Some (((a * 16 + b) * 16 + c) * 16 + d)%N
    | _, _, _, _ => None
    end.

(** [scanstring], strict, from just after the opening quote. *)
Fixpoint scanstring (s : string) : presult string :=
    match s with
    | EmptyString => Malformed
    | String c r =>
        if Ascii.eqb c dquote then Parsed EmptyString r
        else if Ascii.eqb c backslash then
          match r with
          | EmptyString => Malformed
          | String e r1 =>
              if Ascii.eqb e "u" then
                match r1 with
                | String h1 (String h2 (String h3 (String h4 r2))) =>
                    match hex4 h1 h2 h3 h4 with
                    | None => Malformed
                    | Some n =>
                        if N.ltb n 256
                        then pmap (String (Text.chr n)) (scanstring r2)
                        else Unsupported
                    end
                | _ => Malformed
                end
              else
                match unescape e with
                | Some ch => pmap (String ch) (scanstring r1)
                | None => Malformed
                end
          end
        else if N.ltb (Text.code c) 32 then Malformed
        else pmap (String c) (scanstring r)
    end.

Definition digit_cons (c : ascii) (d : uint) : uint :=
    match Text.code c with
    | 48 => D0 d | 49 => D1 d | 50 => D2 d | 51 => D3 d | 52 => D4 d
    | 53 => D5 d | 54 => D6 d | 55 => D7 d | 56 => D8 d | _ => D9 d
    end%N.

(** The longest prefix of digits. *)
Fixpoint scan_digits (s : string) : uint * string :=
    match s with
    | String c r =>
        if Text.is_digit c
        then let (d, r') := scan_digits r in (digit_cons c d, r')
        else (Nil, s)
    | EmptyString => (Nil, s)
    end.

Definition starts_with_digit (s : string) : bool :=
    match s with
    | String c _ => Text.is_digit c
    | EmptyString => false
    end.

(** Whether a fraction (a dot and a digit) or an exponent (e or E, an
      optional sign and a digit) follows. *)
Definition float_follows (s : string) : bool :=
    match s with
    | String c r =>
        if Ascii.eqb c "." then starts_with_digit r
        else if (Ascii.eqb c "e" || Ascii.eqb c "E")%bool then
          match r with
          | String c1 r1 =>
              if (Ascii.eqb c1 "+" || Ascii.eqb c1 "-")%bool
              then starts_with_digit r1
              else Text.is_digit c1
          | EmptyString => false
          end
        else false
    | EmptyString => false
    end.

Definition finish_number (neg : bool) (d : uint) (rest : string) : presult json :=
    if float_follows rest then Unsupported
    else
      let n := Z.of_N (N.of_uint d) in
      Parsed (JInt (if neg then (- n)%Z else n)) rest.

(** [NUMBER_RE.match] on the integer part (an optional minus sign, then
      a lone zero or a digit run without a leading zero); [None] when the
      expression does not match. *)
Definition match_number (s : string) : option (presult json) :=
    let '(neg, s1) :=
      match s with
      | String c r => if Ascii.eqb c "-" then (true, r) else (false, s)
      | EmptyString => (false, s)
      end in
    match s1 with
    | String c r =>
        if Ascii.eqb c "0" then Some (finish_number neg (D0 Nil) r)
        else if Text.is_digit c then
          let (d, r') := scan_digits r in
          Some (finish_number neg (digit_cons c d) r')
        else None
    | EmptyString => None
    end.

Fixpoint strip_prefix (p s : string) : option string :=
    match p with
    | EmptyString => Some s
    | String a p' =>
        match s with
        | String b s' => if Ascii.eqb a b then strip_prefix p' s' else None
        | EmptyString => None
        end
    end.

(** The scalar cases of [scan_once]. *)
Definition scan_scalar (s : string) : presult json :=
    match strip_prefix "null" s with
    | Some r => Parsed JNull r
    | None =>
    match strip_prefix "true" s with
    | Some r => Parsed (JBool true) r
    | None =>
    match strip_prefix "false" s with
    | Some r => Parsed (JBool false) r
    | None =>
    match match_number s with
    | Some res => res
    | None =>
        match strip_prefix "NaN" s, strip_prefix "Infinity" s,
              strip_prefix "-Infinity" s with
        | None, None, None => Malformed
        | _, _, _ => Unsupported
        end
    end end end end.

(** [scan_once], [JSONArray] and [JSONObject]; the recursion is bounded by
      [fuel], and running out of it is reported as [Unsupported]. *)
Fixpoint scan_once (fuel : nat) (s : string) : presult json :=
    match fuel with
    | O => Unsupported
    | S f =>
        match s with
        | EmptyString => Malformed
        | String c r =>
            if Ascii.eqb c dquote then pmap JStr (scanstring r)
            else if Ascii.eqb c "{" then
              match skip_ws r with
              | String c1 r1 =>
                  if Ascii.eqb c1 "}" then Parsed (JObj []) r1
                  else if Ascii.eqb c1 dquote
                  then pmap (fun ps => JObj (fold_left (fun d kv => dict_set (fst kv) (snd kv) d) ps []))
                         (parse_members f r1)
                  else Malformed
              | EmptyString => Malformed
              end
            else if Ascii.eqb c "[" then
              match skip_ws r with
              | String c1 r1 =>
                  if Ascii.eqb c1 "]" then Parsed (JArr []) r1
                  else pmap JArr (parse_elems f (String c1 r1))
              | EmptyString => Malformed
              end
            else scan_scalar s
        end
    end

  with parse_elems (fuel : nat) (s : string) : presult (list json) :=
    match fuel with
    | O => Unsupported
    | S f =>
        match scan_once f s with
        | Parsed v r =>
            match skip_ws r with
            | String c r1 =>
                if Ascii.eqb c "]" then Parsed [v] r1
                else if Ascii.eqb c ","
                then pmap (cons v) (parse_elems f (skip_ws r1))
                else Malformed
            | EmptyString => Malformed
            end
        | Malformed => Malformed
        | Unsupported => Unsupported
        end
    end

  with parse_members (fuel : nat) (s : string) : presult (list (string * json)) :=
    match fuel with
    | O => Unsupported
    | S f =>
        match scanstring s with
        | Parsed k r =>
            match skip_ws r with
            | String c r1 =>
                if Ascii.eqb c ":" then
                  match scan_once f (skip_ws r1) with
                  | Parsed v r2 =>
                      match skip_ws r2 with
                      | String c2 r3 =>
                          if Ascii.eqb c2 "}" then Parsed [(k, v)] r3
                          else if Ascii.eqb c2 "," then
                            match skip_ws r3 with
                            | String q r4 =>
                                if Ascii.eqb q dquote
                                then pmap (cons (k, v)) (parse_members f r4)
                                else Malformed
                            | EmptyString => Malformed
                            end
                          else Malformed
                      | EmptyString => Malformed
                      end
                  | Malformed => Malformed
                  | Unsupported => Unsupported
                  end
                else Malformed
            | EmptyString => Malformed
            end
        | Malformed => Malformed
        | Unsupported => Unsupported
        end
    end.

(** [dict(pairs)] *)
Definition dict_of_pairs (ps : list (string * json)) : dict :=
    fold_left (fun d kv => dict_set (fst kv) (snd kv) d) ps [].

(** [json.loads]: one value between optional whitespace. *)
Definition loads (s : string) : outcome json :=
    match scan_once (S (String.length s)) (skip_ws s) with
    | Parsed v r =>
        match skip_ws r with
        | EmptyString => Ret v
        | String _ _ => Raise JSONDecodeError
        end
    | Malformed => Raise JSONDecodeError
    | Unsupported => Beyond
    end.

(** *** Facts about text *)

Lemma app_assoc_s (a b c : string) : ((a ++ b) ++ c = a ++ (b ++ c))%string.
Proof. induction a as [|x a IH]; simpl; [reflexivity | now rewrite IH]. Qed.


Lemma length_app_s (a b : string) :
    String.length (a ++ b) = String.length a + String.length b.
Proof. induction a as [|x a IH]; simpl; [reflexivity | now rewrite IH]. Qed.

(** *** Induction over nested values *)

Definition json_ind (P : json -> Prop)
      (Hnull : P JNull) (Hbool : forall b, P (JBool b))
      (Hint : forall z, P (JInt z)) (Hstr : forall s, P (JStr s))
      (Harr : forall l, Forall P l -> P (JArr l))
      (Hobj : forall d, Forall (fun kv => P (snd kv)) d -> P (JObj d)) :
    forall v, P v :=
    fix F (v : json) : P v :=
      match v with
      | JNull => Hnull
      | JBool b => Hbool b
      | JInt z => Hint z
      | JStr s => Hstr s
      | JArr l =>
          Harr l ((fix G (l : list json) : Forall P l :=
                     match l with
                     | [] => Forall_nil _
                     | x :: r => Forall_cons x (F x) (G r)
                     end) l)
      | JObj d =>
          Hobj d ((fix G (d : dict) : Forall (fun kv => P (snd kv)) d :=
                     match d with
                     | [] => Forall_nil _
                     | kv :: r => Forall_cons kv (F (snd kv)) (G r)
                     end) d)
      end.

Lemma wf_arr (l : list json) : wf (JArr l) <-> Forall wf l.
Proof.
    induction l as [|x l IH]; simpl.
    - split; auto.
    - split.
      + intros [Hx Hl]. constructor; [exact Hx | now apply IH].
      + intros H. inversion H; subst. split; [assumption | now apply IH].
Qed.

Lemma wf_obj (d : dict) :
    wf (JObj d) <-> NoDup (map fst d) /\ Forall (fun kv => wf (snd kv)) d.
Proof.
    simpl. split; intros [Hn H]; split; try exact Hn; clear Hn.
    - induction d as [|[k x] d IH]; constructor; simpl in *; [tauto | apply IH; tauto].
    - induction d as [|[k x] d IH]; simpl; [exact I|].
      inversion H; subst. split; [assumption | now apply IH].
Qed.

(** *** Dict operations *)

Lemma dict_get_set_same k v d : dict_get k (dict_set k v d) = Some v.
Proof.
    induction d as [|[k' v'] d IH]; simpl.
    - now rewrite String.eqb_refl.
    - destruct (String.eqb k k') eqn:E; simpl; rewrite E; [reflexivity | exact IH].
Qed.

Lemma dict_get_set_other k k' v d :
    k' <> k -> dict_get k' (dict_set k v d) = dict_get k' d.
Proof.
    intros Hne. induction d as [|[k1 v1] d IH]; simpl.
    - destruct (String.eqb_spec k' k); [contradiction | reflexivity].
    - destruct (String.eqb_spec k k1) as [->|Hk]; simpl.
      + destruct (String.eqb_spec k' k1); [contradiction | reflexivity].
      + destruct (String.eqb k' k1); [reflexivity | exact IH].
Qed.

Lemma dict_get_none k d : dict_get k d = None <-> ~ In k (map fst d).
Proof.
    induction d as [|[k' v'] d IH]; simpl.
    - tauto.
    - destruct (String.eqb_spec k k') as [->|Hk].
      + split; [discriminate | intros H; exfalso; apply H; now left].
      + rewrite IH. split; intros H; [intros [E|E]; [congruence | tauto] | tauto].
Qed.

Lemma dict_set_fresh k v d :
    ~ In k (map fst d) -> dict_set k v d = (d ++ [(k, v)])%list.
Proof.
    induction d as [|[k' v'] d IH]; simpl; intros H; [reflexivity|].
    destruct (String.eqb_spec k k') as [->|Hk]; [tauto|].
    rewrite IH; tauto.
Qed.

Lemma dict_get_del_same k d :
    NoDup (map fst d) -> dict_get k (dict_del k d) = None.
Proof.
    induction d as [|[k' v'] d IH]; simpl; intros H; [reflexivity|].
    inversion H; subst.
    destruct (String.eqb_spec k k') as [->|Hk].
    - now apply dict_get_none.
    - simpl. destruct (String.eqb_spec k k'); [contradiction | now apply IH].
Qed.

Lemma dict_get_del_other k k' d :
    k' <> k -> dict_get k' (dict_del k d) = dict_get k' d.
Proof.
    intros Hne. induction d as [|[k1 v1] d IH]; simpl; [reflexivity|].
    destruct (String.eqb_spec k k1) as [->|Hk]; simpl.
    - destruct (String.eqb_spec k' k1); [contradiction | reflexivity].
    - destruct (String.eqb k' k1); [reflexivity | exact IH].
Qed.

Lemma keys_dict_set k v d :
    In k (map fst d) -> map fst (dict_set k v d) = map fst d.
Proof.
    induction d as [|[k' v'] d IH]; simpl; intros H; [contradiction|].
    destruct (String.eqb_spec k k') as [->|Hk]; simpl; [reflexivity|].
    f_equal. apply IH. destruct H; [congruence | assumption].
Qed.

Lemma dict_set_nodup k v d : NoDup (map fst d) -> NoDup (map fst (dict_set k v d)).
Proof.
    intros H. destruct (in_dec string_dec k (map fst d)) as [Hin|Hin].
    - now rewrite keys_dict_set.
    - rewrite dict_set_fresh by assumption. rewrite map_app. simpl.
      apply NoDup_app; [assumption | repeat constructor; simpl; tauto |].
      intros x Hx [<-|[]]. contradiction.
Qed.

Lemma dict_del_incl k d x : In x (map fst (dict_del k d)) -> In x (map fst d).
Proof.
    induction d as [|[k' v'] d IH]; simpl; [tauto|].
    destruct (String.eqb k k'); simpl; tauto.
Qed.

Lemma dict_del_nodup k d : NoDup (map fst d) -> NoDup (map fst (dict_del k d)).
Proof.
    induction d as [|[k' v'] d IH]; simpl; intros H; [constructor|].
    inversion H; subst. destruct (String.eqb k k'); [assumption|].
    simpl. constructor; [|now apply IH].
    intros Hin. now apply dict_del_incl in Hin.
Qed.

Lemma dict_of_pairs_nodup_acc ps : forall acc,
    NoDup (map fst (acc ++ ps)%list) ->
    fold_left (fun d kv => dict_set (fst kv) (snd kv) d) ps acc = (acc ++ ps)%list.
Proof.
    induction ps as [|[k v] ps IH]; intros acc H; simpl.
    - now rewrite app_nil_r.
    - rewrite dict_set_fresh.
      + rewrite IH; rewrite <- app_assoc; [reflexivity | exact H].
      + rewrite map_app in H. simpl in H. apply NoDup_remove_2 in H.
        intros Hin. apply H. apply in_or_app. now left.
Qed.

Lemma dict_of_pairs_nodup ps : NoDup (map fst ps) -> dict_of_pairs ps = ps.
Proof. intros H. unfold dict_of_pairs. now rewrite dict_of_pairs_nodup_acc. Qed.

(** *** Sorting the items *)

Lemma insert_item_perm {A} (kv : string * A) l : Permutation (insert_item kv l) (kv :: l).
Proof.
    induction l as [|kv' l IH]; simpl; [reflexivity|].
    destruct (String.leb (fst kv) (fst kv')); [reflexivity|].
    rewrite IH. apply perm_swap.
Qed.

Lemma sort_items_perm {A} (l : list (string * A)) : Permutation (sort_items l) l.
Proof.
    induction l as [|kv l IH]; simpl; [reflexivity|].
    rewrite insert_item_perm. now constructor.
Qed.

Lemma insert_item_map {A B} (f : A -> B) (kv : string * A) l :
    insert_item (fst kv, f (snd kv)) (map (fun x => (fst x, f (snd x))) l)
    = map (fun x => (fst x, f (snd x))) (insert_item kv l).
Proof.
    induction l as [|kv' l IH]; simpl; [reflexivity|].
    destruct (String.leb (fst kv) (fst kv')); simpl; [reflexivity | now rewrite IH].
Qed.

Lemma sort_items_map {A B} (f : A -> B) (l : list (string * A)) :
    sort_items (map (fun x => (fst x, f (snd x))) l)
    = map (fun x => (fst x, f (snd x))) (sort_items l).
Proof.
    induction l as [|kv l IH]; simpl; [reflexivity|].
    rewrite IH. apply insert_item_map.
Qed.

Lemma order_perm {A} sort (l : list (string * A)) : Permutation (order sort l) l.
Proof. destruct sort; simpl; [apply sort_items_perm | reflexivity]. Qed.

Lemma order_map {A B} sort (f : A -> B) (l : list (string * A)) :
    order sort (map (fun x => (fst x, f (snd x))) l)
    = map (fun x => (fst x, f (snd x))) (order sort l).
Proof. destruct sort; simpl; [apply sort_items_map | reflexivity]. Qed.

End Json.

(** ** Reading back what [json.dumps] wrote *)

Module JsonRoundTrip.
Import Json.

(** The characters that may follow a value in printed text. *)
Definition is_sep (c : ascii) : bool :=
    (Ascii.eqb c "," || Ascii.eqb c newline || Ascii.eqb c "]" || Ascii.eqb c "}")%bool.

Definition delimited (rest : string) : Prop :=
    match rest with
    | EmptyString => True
    | String c _ => is_sep c = true
    end.

Lemma is_sep_cases c :
    is_sep c = true -> c = ","%char \/ c = newline \/ c = "]"%char \/ c = "}"%char.
Proof.
    unfold is_sep. rewrite !orb_true_iff, !Ascii.eqb_eq. tauto.
Qed.

Lemma delimited_number rest :
    delimited rest -> float_follows rest = false /\ starts_with_digit rest = false.
Proof.
    destruct rest as [|c r]; simpl; [auto|].
    intros H. apply is_sep_cases in H.
    destruct H as [ -> | [ -> | [ -> | -> ]]]; split; reflexivity.
Qed.

Lemma delimited_skip_ws_nonempty c r :
    is_sep c = true -> c <> newline -> skip_ws (String c r) = String c r.
Proof.
    intros H Hn. apply is_sep_cases in H.
    destruct H as [ -> | [ -> | [ -> | -> ]]]; try reflexivity. contradiction.
Qed.

(** *** Strings *)

Lemma scanstring_escape_char c t :
    scanstring (escape_char c ++ t) = pmap (String c) (scanstring t).
Proof.
    destruct c as [[|] [|] [|] [|] [|] [|] [|] [|]]; reflexivity.
Qed.

Lemma scanstring_escape s rest :
    scanstring (escape s ++ String dquote rest) = Parsed s rest.
Proof.
    induction s as [|c s IH]; simpl.
    - reflexivity.
    - rewrite app_assoc_s, scanstring_escape_char, IH. reflexivity.
Qed.

Lemma encode_string_app s rest :
    (encode_string s ++ rest)%string = String dquote (escape s ++ String dquote rest).
Proof. unfold encode_string. simpl. now rewrite app_assoc_s. Qed.

(** *** Integers *)

Lemma scan_digits_print d rest :
    starts_with_digit rest = false ->
    scan_digits (NilEmpty.string_of_uint d ++ rest) = (d, rest).
Proof.
    intros H. induction d; simpl; try rewrite IHd; try reflexivity.
    destruct rest as [|c r]; simpl in *; [reflexivity | now rewrite H].
Qed.

(** A printed natural number is a lone zero or starts with a non-zero digit. *)
Lemma to_uint_shape n :
    N.to_uint n = D0 Nil \/
    (N.to_uint n <> Nil /\ forall d, N.to_uint n <> D0 d).
Proof.
    assert (E : N.to_uint n = unorm (N.to_uint n)).
    { rewrite <- (DecimalN.Unsigned.to_of (N.to_uint n)).
      now rewrite DecimalN.Unsigned.of_to. }
    unfold unorm in E.
    destruct (nzhead (N.to_uint n)) eqn:Hz.
    - left. exact E.
    - exfalso. exact (nzhead_nonzero _ _ Hz).
    - right. split; [rewrite E; discriminate | intros d; rewrite E; discriminate].
    - right. split; [rewrite E; discriminate | intros d; rewrite E; discriminate].
    - right. split; [rewrite E; discriminate | intros d; rewrite E; discriminate].
    - right. split; [rewrite E; discriminate | intros d; rewrite E; discriminate].
    - right. split; [rewrite E; discriminate | intros d; rewrite E; discriminate].
    - right. split; [rewrite E; discriminate | intros d; rewrite E; discriminate].
    - right. split; [rewrite E; discriminate | intros d; rewrite E; discriminate].
    - right. split; [rewrite E; discriminate | intros d; rewrite E; discriminate].
    - right. split; [rewrite E; discriminate | intros d; rewrite E; discriminate].
Qed.

Lemma uint_head d :
    d <> Nil -> (forall d', d <> D0 d') ->
    exists c d', (forall r, (NilEmpty.string_of_uint d ++ r)%string
                            = String c (NilEmpty.string_of_uint d' ++ r))
                 /\ Text.is_digit c = true /\ Ascii.eqb c "0" = false
                 /\ digit_cons c d' = d.
Proof.
    intros Hnil Hnz.
    destruct d as [|d|d|d|d|d|d|d|d|d|d];
      try (exfalso; now apply Hnil); try (exfalso; now apply (Hnz d));
      eexists; exists d; repeat split; reflexivity.
Qed.

Lemma digit_not_minus c : Text.is_digit c = true -> Ascii.eqb c "-" = false.
Proof.
    intros H. destruct (Ascii.eqb_spec c "-") as [->|]; [discriminate | reflexivity].
Qed.

Lemma match_number_unsigned c r :
    Text.is_digit c = true ->
    match_number (String c r) =
    if Ascii.eqb c "0" then Some (finish_number false (D0 Nil) r)
    else let (d, r') := scan_digits r in
         Some (finish_number false (digit_cons c d) r').
Proof.
    intros H. unfold match_number. rewrite (digit_not_minus c H), H. reflexivity.
Qed.

Lemma match_number_signed c r :
    Text.is_digit c = true ->
    match_number (String "-" (String c r)) =
    if Ascii.eqb c "0" then Some (finish_number true (D0 Nil) r)
    else let (d, r') := scan_digits r in
         Some (finish_number true (digit_cons c d) r').
Proof.
    intros H. unfold match_number.
    change (Ascii.eqb "-" "-") with true. cbv match beta. rewrite H. reflexivity.
Qed.

Lemma match_number_digits (neg : bool) (n : N) (rest : string) :
    delimited rest ->
    match_number ((if neg then "-" else EmptyString)
                  ++ NilEmpty.string_of_uint (N.to_uint n) ++ rest)
    = Some (Parsed (JInt (if neg then (- Z.of_N n)%Z else Z.of_N n)) rest).
Proof.
    intros Hd. destruct (delimited_number _ Hd) as [Hf Hs].
    pose proof (DecimalN.Unsigned.of_to n) as Hn.
    destruct (to_uint_shape n) as [E|[Hnil Hnz]].
    - rewrite E in Hn |- *. change (N.of_uint (D0 Nil)) with 0%N in Hn. subst n.
      change (NilEmpty.string_of_uint (D0 Nil) ++ rest)%string with (String "0" rest).
      destruct neg; cbn [String.append];
        [rewrite match_number_signed by reflexivity
        | rewrite match_number_unsigned by reflexivity];
        change (Ascii.eqb "0" "0") with true; cbv match;
        unfold finish_number; rewrite Hf; reflexivity.
    - destruct (uint_head _ Hnil Hnz) as (c & d' & Ht & Hc & H0 & Hd').
      rewrite Ht.
      destruct neg; cbn [String.append];
        [rewrite match_number_signed by assumption
        | rewrite match_number_unsigned by assumption];
        rewrite H0, (scan_digits_print d' rest Hs), Hd';
        unfold finish_number; rewrite Hf, Hn; reflexivity.
Qed.

Lemma repr_int_digits z :
    repr_int z =
    ((if (z <? 0)%Z then "-" else EmptyString)
     ++ NilEmpty.string_of_uint (N.to_uint (Z.abs_N z)))%string.
Proof. destruct z; reflexivity. Qed.

Lemma string_of_uint_head n :
    exists c r, NilEmpty.string_of_uint (N.to_uint n) = String c r /\ Text.is_digit c = true.
Proof.
    destruct (to_uint_shape n) as [E|[Hnil Hnz]].
    - rewrite E. simpl. eauto.
    - destruct (N.to_uint n); try (exfalso; now apply Hnil); simpl; eauto.
Qed.

Lemma strip_prefix_head a p c r :
    Ascii.eqb a c = false -> strip_prefix (String a p) (String c r) = None.
Proof. intros H. cbn [strip_prefix]. now rewrite H. Qed.

Lemma number_start_differs c a :
    Text.is_digit c = true \/ c = "-"%char ->
    Text.is_digit a = false -> a <> "-"%char -> Ascii.eqb a c = false.
Proof.
    intros Hc Ha Hm. destruct (Ascii.eqb_spec a c) as [->|]; [|reflexivity].
    destruct Hc as [Hc|Hc]; [congruence | contradiction].
Qed.

Lemma scan_scalar_number s :
    (exists c r, s = String c r /\ (Text.is_digit c = true \/ c = "-"%char)) ->
    forall res, match_number s = Some res -> scan_scalar s = res.
Proof.
    intros (c & r & -> & Hc) res Hm. unfold scan_scalar.
    rewrite !strip_prefix_head
      by (apply number_start_differs; solve [assumption | reflexivity | discriminate]).
    now rewrite Hm.
Qed.

Lemma scan_once_scalar f c r :
    Text.is_digit c = true \/ c = "-"%char ->
    scan_once (S f) (String c r) = scan_scalar (String c r).
Proof.
    intros Hc. cbn [scan_once].
    assert (H : forall a, Text.is_digit a = false -> a <> "-"%char -> Ascii.eqb c a = false).
    { intros a Ha Hm. rewrite Ascii.eqb_sym. now apply number_start_differs. }
    rewrite !H by solve [reflexivity | discriminate]. reflexivity.
Qed.

Lemma scan_once_int z f rest :
    delimited rest ->
    scan_once (S f) (repr_int z ++ rest) = Parsed (JInt z) rest.
Proof.
    intros Hd. rewrite repr_int_digits, app_assoc_s.
    pose proof (match_number_digits (z <? 0)%Z (Z.abs_N z) rest Hd) as Hm.
    assert (Hz : (if (z <? 0)%Z then (- Z.of_N (Z.abs_N z))%Z else Z.of_N (Z.abs_N z)) = z).
    { rewrite N2Z.inj_abs_N. destruct (Z.ltb_spec z 0); lia. }
    rewrite Hz in Hm.
    assert (Hhead : exists c r,
      ((if (z <? 0)%Z then "-" else EmptyString)
        ++ NilEmpty.string_of_uint (N.to_uint (Z.abs_N z)) ++ rest)%string = String c r
      /\ (Text.is_digit c = true \/ c = "-"%char)).
    { destruct (z <? 0)%Z; simpl; [eauto|].
      destruct (string_of_uint_head (Z.abs_N z)) as (c & r & E & Hc).
      rewrite E. simpl. eauto. }
    pose proof (scan_scalar_number _ Hhead _ Hm) as Hs.
    destruct Hhead as (c & r & E & Hc). rewrite E in *.
    now rewrite scan_once_scalar.
Qed.

(** *** Nested values *)

(** Fuel that suffices to read a printed value back. *)
Fixpoint size (v : json) : nat :=
    match v with
    | JArr l => S (list_sum (map (fun x => S (size x)) l))
    | JObj d => S (list_sum (map (fun kv => S (size (snd kv))) d))
    | _ => 1
    end.

Lemma list_sum_perm l l' : Permutation l l' -> list_sum l = list_sum l'.
Proof. induction 1; simpl; lia. Qed.

Lemma join_cons2 sep p q ps :
    Text.join sep (p :: q :: ps) = (p ++ sep ++ Text.join sep (q :: ps))%string.
Proof. reflexivity. Qed.

Lemma scan_once_open_obj f r :
    scan_once (S f) (String "{" r) =
    match skip_ws r with
    | String c1 r1 =>
        if Ascii.eqb c1 "}" then Parsed (JObj []) r1
        else if Ascii.eqb c1 dquote
        then pmap (fun ps => JObj (dict_of_pairs ps)) (parse_members f r1)
        else Malformed
    | EmptyString => Malformed
    end.
Proof. reflexivity. Qed.

Lemma scan_once_open_arr f r :
    scan_once (S f) (String "[" r) =
    match skip_ws r with
    | String c1 r1 =>
        if Ascii.eqb c1 "]" then Parsed (JArr []) r1
        else pmap JArr (parse_elems f (String c1 r1))
    | EmptyString => Malformed
    end.
Proof. reflexivity. Qed.

Lemma scan_once_open_str f r :
    scan_once (S f) (String dquote r) = pmap JStr (scanstring r).
Proof. reflexivity. Qed.

Lemma string_tail_inj c s t : String c s = String c t -> s = t.
Proof. intros H. now injection H. Qed.

Lemma skip_ws_spaces n t : skip_ws (Text.spaces n ++ t) = skip_ws t.
Proof. induction n as [|n IH]; simpl; [reflexivity | exact IH]. Qed.

Lemma digit_not_ws c : Text.is_digit c = true -> is_ws c = false.
Proof.
    intros H. unfold is_ws.
    destruct (Ascii.eqb_spec c " ") as [->|]; [discriminate|].
    destruct (Ascii.eqb_spec c (Text.chr 9)) as [->|]; [discriminate|].
    destruct (Ascii.eqb_spec c newline) as [->|]; [discriminate|].
    destruct (Ascii.eqb_spec c (Text.chr 13)) as [->|]; [discriminate|].
    reflexivity.
Qed.

Section RoundTrip.
Variable indent : option nat.
Variable sort_keys : bool.

#[local] Abbreviation enc := (encode indent sort_keys).
#[local] Abbreviation nrm := (norm sort_keys).
#[local] Abbreviation nl := (newline_indent indent).
#[local] Abbreviation sep := (separator indent).

Lemma skip_ws_nl level t : skip_ws (nl level ++ t) = skip_ws t.
Proof.
      unfold newline_indent. destruct indent as [n|]; [|reflexivity].
      cbn [String.append]. change (is_ws newline) with true.
      cbn [skip_ws]. change (is_ws newline) with true. cbv match.
      apply skip_ws_spaces.
Qed.

Lemma delimited_nl level c t :
      c = "]"%char \/ c = "}"%char -> delimited (nl level ++ String c t).
Proof.
      intros Hc. unfold newline_indent. destruct indent as [n|].
      - reflexivity.
      - destruct Hc as [ -> | -> ]; reflexivity.
Qed.

Lemma sep_shape level :
      exists w, (forall t, (sep level ++ t)%string = String "," (w ++ t))
                /\ forall t, skip_ws (w ++ t) = skip_ws t.
Proof.
      unfold separator, item_separator.
      unfold newline_indent. destruct indent as [n|].
      - exists (String newline (Text.spaces (n * level))). split.
        + intros t. reflexivity.
        + intros t. cbn [String.append skip_ws].
          change (is_ws newline) with true. cbv match. apply skip_ws_spaces.
      - exists " ". split; reflexivity.
Qed.

(** A printed value starts with a character that is neither whitespace
        nor a closing bracket. *)
Lemma encode_head level v :
      exists c r, enc level v = String c r /\ is_ws c = false
                  /\ Ascii.eqb c "]" = false.
Proof.
      destruct v as [|[|]|z|s|l|d];
        try (eexists; eexists; repeat split; reflexivity).
      - cbn [encode]. rewrite repr_int_digits.
        destruct (z <? 0)%Z; [eexists; eexists; repeat split; reflexivity|].
        destruct (string_of_uint_head (Z.abs_N z)) as (c & r & E & Hc).
        exists c, r. split; [exact E | split; [now apply digit_not_ws|]].
        destruct (Ascii.eqb_spec c "]") as [->|]; [discriminate | reflexivity].
      - destruct l; eexists; eexists; repeat split; reflexivity.
      - destruct d; eexists; eexists; repeat split; reflexivity.
Qed.

Lemma skip_ws_enc level v t : skip_ws (enc level v ++ t) = (enc level v ++ t)%string.
Proof.
      destruct (encode_head level v) as (c & r & E & Hc & _).
      rewrite E. cbn [String.append skip_ws]. now rewrite Hc.
Qed.

(** Reading back one printed value, for every continuation that starts
        with a delimiter. *)
Definition reads_back (v : json) : Prop :=
      wf v -> forall level f rest,
        size v <= f -> delimited rest ->
        scan_once f (enc level v ++ rest) = Parsed (nrm v) rest.

Lemma parse_elems_enc l :
      l <> [] -> Forall reads_back l -> Forall wf l ->
      forall level f rest,
        list_sum (map (fun x => S (size x)) l) <= f ->
        parse_elems f (Text.join (sep (S level)) (map (enc (S level)) l)
                       ++ nl level ++ String "]" rest)
        = Parsed (map nrm l) rest.
Proof.
      induction l as [|x l IH]; [congruence|].
      intros _ HF Hwf level f rest Hf.
      inversion HF as [|? ? Hx HFl]; subst. inversion Hwf as [|? ? Wx Wl]; subst.
      cbn [map list_sum fold_right] in Hf.
      destruct f as [|f]; [lia|]. cbn [parse_elems].
      destruct l as [|y l].
      - cbn [map Text.join].
        rewrite (Hx Wx (S level) f _) by (try lia; apply delimited_nl; now left).
        rewrite skip_ws_nl. cbn [skip_ws]. reflexivity.
      - cbn [map]. rewrite join_cons2, !app_assoc_s.
        destruct (sep_shape (S level)) as (w & Hw & Hskip).
        rewrite Hw.
        rewrite (Hx Wx (S level) f _) by (try lia; reflexivity).
        cbn [skip_ws]. change (is_ws ",") with false. cbv match.
        change (Ascii.eqb "," "]") with false.
        change (Ascii.eqb "," ",") with true. cbv match.
        rewrite Hskip.
        assert (Hy : exists X, (Text.join (sep (S level)) (enc (S level) y :: map (enc (S level)) l)
                      ++ nl level ++ String "]" rest)%string
                     = (enc (S level) y ++ X)%string).
        { destruct l; cbn [map].
          - cbn [Text.join]. eauto.
          - rewrite join_cons2, !app_assoc_s. eauto. }
        destruct Hy as (X & HX).
        rewrite HX, skip_ws_enc, <- HX.
        change (enc (S level) y :: map (enc (S level)) l)
          with (map (enc (S level)) (y :: l)).
        rewrite IH; [reflexivity | discriminate | assumption | assumption |].
        cbn [map list_sum fold_right] in *. lia.
Qed.

Lemma parse_members_enc m :
      m <> [] -> Forall (fun kv => reads_back (snd kv)) m ->
      Forall (fun kv => wf (snd kv)) m ->
      forall level f rest T,
        list_sum (map (fun kv => S (size (snd kv))) m) <= f ->
        String dquote T =
          (Text.join (sep (S level))
             (map member (map (fun kv => (fst kv, enc (S level) (snd kv))) m))
           ++ nl level ++ String "}" rest)%string ->
        parse_members f T
        = Parsed (map (fun kv => (fst kv, nrm (snd kv))) m) rest.
Proof.
      induction m as [|[k x] m IH]; [congruence|].
      intros _ HF Hwf level f rest T Hf HT.
      inversion HF as [|? ? Hx HFl]; subst. inversion Hwf as [|? ? Wx Wl]; subst.
      cbn [map list_sum fold_right fst snd] in *.
      destruct f as [|f]; [lia|]. cbn [parse_members].
      assert (Hmem : forall k e t, (member (k, e) ++ t)%string
                = String dquote (escape k ++ String dquote (String ":" (String " " (e ++ t))))).
      { intros k0 e t. unfold member, key_separator. cbn [fst snd].
        rewrite app_assoc_s, encode_string_app. reflexivity. }
      destruct m as [|[k' y] m].
      - cbn [map Text.join] in HT. rewrite Hmem in HT.
        apply string_tail_inj in HT. subst T.
        rewrite scanstring_escape. cbn [skip_ws].
        change (is_ws ":") with false. cbv match.
        change (Ascii.eqb ":" ":") with true. cbv match.
        change (skip_ws (String " " ?t)) with (skip_ws t).
        rewrite skip_ws_enc.
        rewrite (Hx Wx (S level) f _) by (try lia; apply delimited_nl; now right).
        rewrite skip_ws_nl. cbn [skip_ws]. reflexivity.
      - cbn [map fst snd] in HT. rewrite join_cons2, !app_assoc_s, Hmem in HT.
        apply string_tail_inj in HT. subst T.
        rewrite scanstring_escape. cbn [skip_ws].
        change (is_ws ":") with false. cbv match.
        change (Ascii.eqb ":" ":") with true. cbv match.
        change (skip_ws (String " " ?t)) with (skip_ws t).
        rewrite skip_ws_enc.
        destruct (sep_shape (S level)) as (w & Hw & Hskip).
        rewrite Hw.
        rewrite (Hx Wx (S level) f _) by (try lia; reflexivity).
        cbn [skip_ws]. change (is_ws ",") with false. cbv match.
        change (Ascii.eqb "," "}") with false.
        change (Ascii.eqb "," ",") with true. cbv match.
        rewrite Hskip.
        assert (Hy : exists X,
          (Text.join (sep (S level))
             (member (k', enc (S level) y)
              :: map member (map (fun kv => (fst kv, enc (S level) (snd kv))) m))
           ++ nl level ++ String "}" rest)%string = String dquote X).
        { destruct m; cbn [map].
          - cbn [Text.join]. rewrite Hmem. eauto.
          - rewrite join_cons2, !app_assoc_s, Hmem. eauto. }
        destruct Hy as (X & HX). rewrite HX.
        cbn [skip_ws]. change (is_ws dquote) with false. cbv match.
        change (Ascii.eqb dquote dquote) with true. cbv match.
        rewrite (IH ltac:(discriminate) HFl Wl level f rest X);
          [reflexivity | cbn [map list_sum fold_right fst snd] in *; lia |].
        rewrite <- HX. reflexivity.
Qed.

Theorem scan_once_encode v : reads_back v.
Proof.
      induction v as [|b|z|s|l IHl|d IHd] using json_ind;
        intros Hwf level f rest Hf Hd; cbn [size] in Hf;
        (destruct f as [|f]; [lia|]).
      - reflexivity.
      - destruct b; reflexivity.
      - cbn [encode norm]. now apply scan_once_int.
      - cbn [encode norm]. rewrite encode_string_app, scan_once_open_str.
        now rewrite scanstring_escape.
      - apply wf_arr in Hwf. cbn [norm].
        destruct l as [|x l]; [reflexivity|].
        cbn [encode]. cbn [String.append]. rewrite !app_assoc_s.
        rewrite scan_once_open_arr, skip_ws_nl.
        assert (Hy : exists X,
          (Text.join (sep (S level)) (map (enc (S level)) (x :: l))
           ++ nl level ++ "]" ++ rest)%string = (enc (S level) x ++ X)%string).
        { destruct l; cbn [map].
          - cbn [Text.join]. eauto.
          - rewrite join_cons2, !app_assoc_s. eauto. }
        destruct Hy as (X & HX). rewrite HX, skip_ws_enc.
        destruct (encode_head (S level) x) as (c & r & E & Hc & Hb).
        rewrite E. cbn [String.append].
        rewrite Hb. change (String c (r ++ X)) with (String c r ++ X)%string.
        rewrite <- E, <- HX.
        change ("]" ++ rest)%string with (String "]" rest).
        rewrite parse_elems_enc; [reflexivity | discriminate | assumption | assumption | lia].
      - apply wf_obj in Hwf. destruct Hwf as [Hnd Hwf]. cbn [norm].
        destruct d as [|kv d]; [destruct sort_keys; reflexivity|].
        cbn [encode]. rewrite !order_map.
        pose proof (order_perm sort_keys (kv :: d)) as Hp.
        set (m := order sort_keys (kv :: d)) in *.
        assert (Hm : m <> []).
        { intros E. rewrite E in Hp. now apply Permutation_nil in Hp. }
        cbn [String.append]. rewrite !app_assoc_s.
        rewrite scan_once_open_obj, skip_ws_nl.
        assert (Hy : exists X,
          (Text.join (sep (S level))
             (map member (map (fun x => (fst x, enc (S level) (snd x))) m))
           ++ nl level ++ "}" ++ rest)%string = String dquote X).
        { destruct m as [|[k x] m']; [congruence|]. destruct m'; cbn [map].
          - cbn [Text.join]. unfold member. cbn [fst snd]. unfold encode_string.
            cbn [String.append]. eauto.
          - rewrite join_cons2. unfold member at 1. cbn [fst snd]. unfold encode_string.
            cbn [String.append]. eauto. }
        destruct Hy as (X & HX). rewrite HX.
        cbn [skip_ws]. change (is_ws dquote) with false. cbv match.
        change (Ascii.eqb dquote "}") with false.
        change (Ascii.eqb dquote dquote) with true. cbv match.
        rewrite (parse_members_enc m Hm) with (level := level) (rest := rest).
        + cbn [pmap]. rewrite dict_of_pairs_nodup; [reflexivity|].
          rewrite map_map. cbn [fst].
          apply (Permutation_NoDup (l := map fst (kv :: d))); [|exact Hnd].
          apply Permutation_map. now symmetry.
        + apply (Permutation_Forall (Permutation_sym Hp)). exact IHd.
        + apply (Permutation_Forall (Permutation_sym Hp)). exact Hwf.
        + rewrite (list_sum_perm _ (map (fun kv0 => S (size (snd kv0))) (kv :: d)));
            [lia | now apply Permutation_map].
        + symmetry. exact HX.
Qed.

End RoundTrip.

(** *** The fuel [loads] starts with is enough *)

Lemma join_length sep parts :
    parts <> [] -> 1 <= String.length sep ->
    list_sum (map (fun p => S (String.length p)) parts)
    <= S (String.length (Text.join sep parts)).
Proof.
    intros Hne Hsep. induction parts as [|p ps IH]; [congruence|].
    destruct ps as [|q ps].
    - cbn. lia.
    - rewrite join_cons2, !length_app_s.
      cbn [map list_sum fold_right] in *.
      specialize (IH ltac:(discriminate)). lia.
Qed.

Lemma list_sum_map_le {A} (f g : A -> nat) l :
    Forall (fun x => f x <= g x) l -> list_sum (map f l) <= list_sum (map g l).
Proof.
    induction 1 as [|x l Hx _ IH]; [reflexivity|].
    change (f x + list_sum (map f l) <= g x + list_sum (map g l)). lia.
Qed.

Lemma separator_length indent level : 1 <= String.length (separator indent level).
Proof.
    unfold separator, item_separator. rewrite length_app_s.
    destruct indent; cbn; lia.
Qed.

Lemma repr_int_length z : 1 <= String.length (repr_int z).
Proof.
    rewrite repr_int_digits, length_app_s.
    destruct (string_of_uint_head (Z.abs_N z)) as (c & r & E & _).
    rewrite E. cbn [String.length]. lia.
Qed.

Lemma size_le_length indent sort_keys v :
    forall level, size v <= String.length (encode indent sort_keys level v).
Proof.
    induction v as [|b|z|s|l IHl|d IHd] using json_ind; intros level.
    - cbn. lia.
    - destruct b; cbn; lia.
    - cbn [size encode]. apply repr_int_length.
    - cbn [size encode]. unfold encode_string. cbn [String.length]. lia.
    - cbn [size]. destruct l as [|x l]; [cbn; lia|].
      cbn [encode]. rewrite !length_app_s. cbn [String.length].
      pose proof (join_length (separator indent (S level))
                    (map (encode indent sort_keys (S level)) (x :: l))
                    ltac:(discriminate) (separator_length _ _)) as Hj.
      rewrite map_map in Hj.
      pose proof (list_sum_map_le (fun x => S (size x))
                    (fun x => S (String.length (encode indent sort_keys (S level) x)))
                    (x :: l)) as Hle.
      assert (HF : Forall (fun x => S (size x)
                     <= S (String.length (encode indent sort_keys (S level) x))) (x :: l)).
      { eapply Forall_impl; [|exact IHl]. intros a Ha. cbn beta in Ha.
        specialize (Ha (S level)). lia. }
      specialize (Hle HF). lia.
    - cbn [size]. destruct d as [|kv d]; [cbn; lia|].
      cbn [encode]. rewrite order_map, !length_app_s. cbn [String.length].
      pose proof (order_perm sort_keys (kv :: d)) as Hp.
      set (m := order sort_keys (kv :: d)) in *.
      assert (Hm : m <> []).
      { intros E. rewrite E in Hp. now apply Permutation_nil in Hp. }
      pose proof (join_length (separator indent (S level))
                    (map member (map (fun x => (fst x, encode indent sort_keys (S level) (snd x))) m))
                    ltac:(destruct m; [congruence | discriminate])
                    (separator_length _ _)) as Hj.
      rewrite !map_map in Hj.
      assert (HF : Forall (fun x => S (size (snd x))
                     <= S (String.length
                             (member (fst x, encode indent sort_keys (S level) (snd x))))) m).
      { apply (Permutation_Forall (Permutation_sym Hp)).
        eapply Forall_impl; [|exact IHd]. intros a Ha. cbn beta in Ha.
        specialize (Ha (S level)). unfold member. cbn [fst snd].
        rewrite !length_app_s. lia. }
      pose proof (list_sum_map_le _ _ _ HF) as Hle.
      rewrite (list_sum_perm _ _ (Permutation_map (fun x => S (size (snd x))) (Permutation_sym Hp))).
      rewrite map_map. lia.
Qed.

(** *** [loads (dumps v)] *)

Theorem loads_dumps indent sort_keys v tail :
    wf v -> delimited tail -> skip_ws tail = EmptyString ->
    loads (dumps indent sort_keys v ++ tail) = Ret (norm sort_keys v).
Proof.
    intros Hwf Hd Hws. unfold loads, dumps.
    rewrite skip_ws_enc.
    rewrite (scan_once_encode indent sort_keys v Hwf);
      [now rewrite Hws | | exact Hd].
    rewrite length_app_s.
    pose proof (size_le_length indent sort_keys v 0). lia.
Qed.

(** *** What [norm] preserves *)


Lemma dict_get_perm k d d' :
    NoDup (map fst d) -> Permutation d d' -> dict_get k d = dict_get k d'.
Proof.
    intros Hnd Hp. induction Hp as [|[k1 v1] l l' Hp IH|[k1 v1] [k2 v2] l|l l' l'' H1 IH1 H2 IH2].
    - reflexivity.
    - cbn [dict_get]. inversion Hnd; subst.
      destruct (String.eqb k k1); [reflexivity | now apply IH].
    - cbn [dict_get]. cbn [map fst] in Hnd.
      inversion Hnd as [|? ? Hn1 Hnd']; subst.
      destruct (String.eqb_spec k k2) as [->|]; [|reflexivity].
      destruct (String.eqb_spec k2 k1) as [->|]; [|reflexivity].
      exfalso. apply Hn1. now left.
    - rewrite IH1 by assumption. apply IH2.
      apply (Permutation_NoDup (Permutation_map fst H1) Hnd).
Qed.

Lemma dict_get_map k (f : json -> json) d :
    dict_get k (map (fun kv => (fst kv, f (snd kv))) d) = option_map f (dict_get k d).
Proof.
    induction d as [|[k' x] d IH]; cbn [map dict_get fst snd option_map]; [reflexivity|].
    destruct (String.eqb k k'); [reflexivity | exact IH].
Qed.

Lemma keys_norm_items sort_keys (f : json -> json) d :
    Permutation (map fst (order sort_keys (map (fun kv => (fst kv, f (snd kv))) d)))
                (map fst d).
Proof.
    rewrite order_map, map_map. cbn [fst].
    apply Permutation_map, order_perm.
Qed.

Lemma dict_get_norm sort_keys k d :
    NoDup (map fst d) ->
    dict_get k (order sort_keys (map (fun kv => (fst kv, norm sort_keys (snd kv))) d))
    = option_map (norm sort_keys) (dict_get k d).
Proof.
    intros Hnd. rewrite <- dict_get_map.
    symmetry. apply dict_get_perm.
    - rewrite map_map. cbn [fst]. exact Hnd.
    - symmetry. apply order_perm.
Qed.

Lemma order_map_length sort_keys (f : json -> json) (d : dict) :
  length (order sort_keys (map (fun kv => (fst kv, f (snd kv))) d)) = length d.
Proof.
  rewrite (Permutation_length (order_perm sort_keys _)). apply length_map.
Qed.

Lemma wf_norm sort_keys v : wf v -> wf (norm sort_keys v).
Proof.
    induction v as [|b|z|s|l IHl|d IHd] using json_ind; intros Hwf; try exact I.
    - cbn [norm]. apply wf_arr. apply wf_arr in Hwf.
      induction IHl as [|x l Hx _ IH]; cbn [map]; constructor;
        inversion Hwf; subst; auto.
    - cbn [norm]. apply wf_obj in Hwf. destruct Hwf as [Hnd Hwf]. apply wf_obj. split.
      + apply (Permutation_NoDup (l := map fst d)); [|exact Hnd].
        symmetry. apply keys_norm_items.
      + apply (Permutation_Forall (Permutation_sym (order_perm sort_keys _))).
        apply Forall_map. cbn [snd]. clear Hnd.
        induction IHd as [|[k x] d Hx _ IH]; constructor;
          inversion Hwf; subst; cbn [snd] in *; auto.
Qed.

End JsonRoundTrip.

(** ** [base64] and UTF-8 *)

Module Base64.

(** The standard alphabet, and the URL-safe one of [urlsafe_b64encode]. *)
Definition b64_char (urlsafe : bool) (n : N) : ascii :=
    if N.ltb n 26 then Text.chr (65 + n)
    else if N.ltb n 52 then Text.chr (71 + n)
    else if N.ltb n 62 then Text.chr (n - 4)
    else if N.eqb n 62 then (if urlsafe then "-"%char else "+"%char)
    else (if urlsafe then "_"%char else "/"%char).


Definition pad : ascii := "="%char.

(** [b64encode], three bytes at a time. *)
Fixpoint encode (urlsafe : bool) (s : string) : string :=
    match s with
    | EmptyString => EmptyString
    | String a EmptyString =>
        let x := Text.code a in
        String (b64_char urlsafe (x / 4))
          (String (b64_char urlsafe ((x mod 4) * 16))
             (String pad (String pad EmptyString)))
    | String a (String b EmptyString) =>
        let x := Text.code a in
        let y := Text.code b in
        String (b64_char urlsafe (x / 4))
          (String (b64_char urlsafe ((x mod 4) * 16 + y / 16))
             (String (b64_char urlsafe ((y mod 16) * 4))
                (String pad EmptyString)))
    | String a (String b (String c r)) =>
        let x := Text.code a in
        let y := Text.code b in
        let z := Text.code c in
        String (b64_char urlsafe (x / 4))
          (String (b64_char urlsafe ((x mod 4) * 16 + y / 16))
             (String (b64_char urlsafe ((y mod 16) * 4 + z / 64))
                (String (b64_char urlsafe (z mod 64)) (encode urlsafe r))))
    end.

Definition b64encode : string -> string := encode false.


(** [s.rstrip('=')] *)
Fixpoint rstrip_pad (s : string) : string :=
    match s with
    | EmptyString => EmptyString
    | String c r =>
        match rstrip_pad r with
        | EmptyString => if Ascii.eqb c pad then EmptyString else String c EmptyString
        | r' => String c r'
        end
    end.

(** [str.encode()]: UTF-8, for code points below 256. *)
Definition utf8_char (c : ascii) : string :=
    let n := Text.code c in
    if N.ltb n 128 then String c EmptyString
    else String (Text.chr (192 + n / 64)) (String (Text.chr (128 + n mod 64)) EmptyString).

Fixpoint utf8_encode (s : string) : string :=
    match s with
    | EmptyString => EmptyString
    | String c r => utf8_char c ++ utf8_encode r
    end.









End Base64.

Module Base64Facts.
Import Base64.

#[local] Ltac Zify.zify_post_hook ::= Z.to_euclidean_division_equations.








End Base64Facts.

(** ** [str.format], [int], [re.search] and [argparse] *)

Module Py.

Fixpoint lookup (k : string) (kw : list (string * string)) : option string :=
    match kw with
    | [] => None
    | (k', v) :: r => if String.eqb k k' then Some v else lookup k r
    end.

Definition omap {A B} (f : A -> B) (o : outcome A) : outcome B :=
    match o with
    | Ret a => Ret (f a)
    | Raise e => Raise e
    | Beyond => Beyond
    end.

(** *** [str.format] with keyword arguments

      Literal text, the escapes [{{] and [}}], and replacement fields that
      are a plain name.  Conversions, format specifications, attribute and
      index access are outside the model.  [field] is [Some name] while the
      scanner is inside a replacement field.  No positional argument is ever
      passed: a field without a name, or with a number, is an [IndexError],
      and a number too large for an index is a [ValueError]. *)
(** The number a field name made of digits denotes, and whether it fits the
      index type (the largest [Py_ssize_t] of a 64-bit build). *)
Fixpoint decimal_value (s : string) (acc : N) : N :=
    match s with
    | EmptyString => acc
    | String c r => decimal_value r (acc * 10 + (Text.code c - 48))
    end.

Definition index_fits (name : string) : bool :=
    N.leb (decimal_value name 0) 9223372036854775807.

Fixpoint format_from (kw : list (string * string)) (s : string)
      (field : option string) : outcome string :=
    match field with
    | None =>
        match s with
        | EmptyString => Ret EmptyString
        | String c r =>
            if Ascii.eqb c "{" then
              match r with
              | String c' r' =>
                  if Ascii.eqb c' "{"
                  then omap (String "{") (format_from kw r' None)
                  else format_from kw r (Some EmptyString)
              | EmptyString => Raise ValueError
              end
            else if Ascii.eqb c "}" then
              match r with
              | String c' r' =>
                  if Ascii.eqb c' "}"
                  then omap (String "}") (format_from kw r' None)
                  else Raise ValueError
              | EmptyString => Raise ValueError
              end
            else omap (String c) (format_from kw r None)
        end
    | Some name =>
        match s with
        | EmptyString => Raise ValueError
        | String c r =>
            if Ascii.eqb c "}" then
              if (String.eqb name EmptyString || Text.str_all Text.is_digit name)%bool
              then (if index_fits name then Raise IndexError else Raise ValueError)
              else
                match lookup name kw with
                | Some v => omap (String.append v) (format_from kw r None)
                | None => Raise KeyError
                end
            else if Ascii.eqb c "{" then Raise ValueError
            else if (Ascii.eqb c "!" || Ascii.eqb c ":" || Ascii.eqb c "."
                     || Ascii.eqb c "[")%bool then Beyond
            else format_from kw r (Some (name ++ String c EmptyString))
        end
    end.

Definition format (template : string) (kw : list (string * string)) : outcome string :=
    format_from kw template None.





(** *** [int(text)] in base ten

      The blanks [int] skips at both ends of the text: tab to carriage
      return and the space, and the two blanks of Latin-1 above 127, which
      it turns into spaces first.  The separators 28 to 31 are blanks for
      [str.strip] but not for [int]. *)

Definition is_space (c : ascii) : bool :=
    let n := Text.code c in
    (Text.in_range 9 13 c || N.eqb n 32 || N.eqb n 133 || N.eqb n 160)%bool.

Fixpoint lstrip (s : string) : string :=
    match s with
    | String c r => if is_space c then lstrip r else s
    | EmptyString => s
    end.

Definition strip (s : string) : string :=
    Text.str_rev (lstrip (Text.str_rev (lstrip s))).

Fixpoint digits_value (s : string) (acc : Z) (after_digit : bool) : option Z :=
    match s with
    | EmptyString => if after_digit then Some acc else None
    | String c r =>
        if Text.is_digit c
        then digits_value r (acc * 10 + Z.of_N (Text.code c - 48)) true
        else if (Ascii.eqb c "_" && after_digit)%bool then digits_value r acc false
        else None
    end.

Definition int_of_str (s : string) : outcome Z :=
    let body :=
      match strip s with
      | String c r =>
          if Ascii.eqb c "-" then option_map Z.opp (digits_value r 0 false)
          else if Ascii.eqb c "+" then digits_value r 0 false
          else digits_value (String c r) 0 false
      | EmptyString => None
      end in
    match body with
    | Some z => Ret z
    | None => Raise ValueError
    end.


(** *** The expression of [connstr]

      [re.search] with [re.MULTILINE] for a line start, a greedy run of
      characters other than a newline (the group [domain]), a space, an
      opening brace, anything, and a closing brace. *)

Definition newline : ascii := Text.chr 10.

Fixpoint has_close (s : string) : bool :=
    match s with
    | EmptyString => false
    | String c r => (Ascii.eqb c "}" || has_close r)%bool
    end.

(** Whether the text continues with a space, an opening brace and, later,
      a closing brace. *)
Definition block_follows (s : string) : bool :=
    match s with
    | String a (String b r) => (Ascii.eqb a " " && Ascii.eqb b "{" && has_close r)%bool
    | _ => false
    end.

(** The longest run within the line after which the block follows. *)
Fixpoint longest_run (s : string) : option string :=
    match s with
    | EmptyString => None
    | String c r =>
        match (if Ascii.eqb c newline then None
               else option_map (String c) (longest_run r)) with
        | Some p => Some p
        | None => if block_follows s then Some EmptyString else None
        end
    end.

Definition match_here (s : string) : option string :=
    match s with
    | EmptyString => None
    | String c r =>
        if Ascii.eqb c newline then None else option_map (String c) (longest_run r)
    end.

Fixpoint search_from (s : string) (line_start : bool) : option string :=
    match (if line_start then match_here s else None) with
    | Some d => Some d
    | None =>
        match s with
        | EmptyString => None
        | String c r => search_from r (Ascii.eqb c newline)
        end
    end.

(** The group [domain] of the first match, if there is one. *)
Definition search_domain (config : string) : option string :=
    search_from config true.

End Py.

(** ** The outside world *)

Inductive path : Type :=
| CADDY_CONFIG_PATH
| USERS_CONFIG_PATH
| XRAY_CONFIG_PATH
| TEMPLATE (transport name : string).

Inductive event : Type :=
| EvRead (p : path)
| EvOpenW (p : path)
| EvWrite (p : path) (text : string)
| EvMakedirs (p : path)
| EvStdout (line : string)
| EvStderr (line : string)
| EvPrompt (prompt : string).

Record world : Type := {
  caddy_file : option string;
  users_file : option string;
  xray_file : option string;
  templates : string -> string -> option string;
  stdin : list string;
  entropy : nat -> ascii;
  consumed : nat;
  trace : list event
}.

(** The content of a file, [None] when it does not exist. *)
Definition files (w : world) (p : path) : option string :=
  match p with
  | CADDY_CONFIG_PATH => caddy_file w
  | USERS_CONFIG_PATH => users_file w
  | XRAY_CONFIG_PATH => xray_file w
  | TEMPLATE transport name => templates w transport name
  end.

Definition log (e : event) (w : world) : world :=
  {| caddy_file := caddy_file w; users_file := users_file w;
     xray_file := xray_file w; templates := templates w;
     stdin := stdin w; entropy := entropy w;
     consumed := consumed w; trace := (trace w ++ [e])%list |}.

Definition put_file (p : path) (text : string) (w : world) : world :=
  {| caddy_file := match p with CADDY_CONFIG_PATH => Some text | _ => caddy_file w end;
     users_file := match p with USERS_CONFIG_PATH => Some text | _ => users_file w end;
     xray_file := match p with XRAY_CONFIG_PATH => Some text | _ => xray_file w end;
     templates :=
       match p with
       | TEMPLATE transport name =>
           fun t n => if (String.eqb t transport && String.eqb n name)%bool
                      then Some text else templates w t n
       | _ => templates w
       end;
     stdin := stdin w; entropy := entropy w;
     consumed := consumed w; trace := trace w |}.

Definition set_stdin (lines : list string) (w : world) : world :=
  {| caddy_file := caddy_file w; users_file := users_file w;
     xray_file := xray_file w; templates := templates w;
     stdin := lines; entropy := entropy w;
     consumed := consumed w; trace := trace w |}.

Definition consume (n : nat) (w : world) : world :=
  {| caddy_file := caddy_file w; users_file := users_file w;
     xray_file := xray_file w; templates := templates w;
     stdin := stdin w; entropy := entropy w;
     consumed := consumed w + n; trace := trace w |}.

(** ** Commands as state-and-exception computations *)

Definition M (A : Type) : Type := world -> outcome A * world.

Definition ret {A} (a : A) : M A := fun w => (Ret a, w).

Definition bind {A B} (m : M A) (k : A -> M B) : M B :=
  fun w =>
    match m w with
    | (Ret a, w') => k a w'
    | (Raise e, w') => (Raise e, w')
    | (Beyond, w') => (Beyond, w')
    end.

Definition lift {A} (o : outcome A) : M A := fun w => (o, w).

Definition raise {A} (e : exn) : M A := lift (Raise e).

Definition exn_eqb (a b : exn) : bool :=
  match a, b with
  | KeyError, KeyError | IndexError, IndexError | TypeError, TypeError
  | ValueError, ValueError | AttributeError, AttributeError
  | JSONDecodeError, JSONDecodeError | FileNotFoundError, FileNotFoundError
  | EOFError, EOFError | SystemExit, SystemExit => true
  | _, _ => false
  end.

(** [try: body except e: handler] *)
Definition try_except {A} (body : M A) (e : exn) (handler : M A) : M A :=
  fun w =>
    match body w with
    | (Raise e', w') => if exn_eqb e e' then handler w' else (Raise e', w')
    | r => r
    end.

Declare Scope py_scope.
Delimit Scope py_scope with py.
Notation "x <- m ;; k" := (bind m (fun x => k))
  (at level 61, m at next level, right associativity) : py_scope.
Notation "m ;; k" := (bind m (fun _ => k))
  (at level 61, right associativity) : py_scope.
Local Open Scope py_scope.

(** Sequencing of pure outcomes. *)
Definition obind {A B} (o : outcome A) (k : A -> outcome B) : outcome B :=
  match o with
  | Ret a => k a
  | Raise e => Raise e
  | Beyond => Beyond
  end.
Notation "x <~ o ;; k" := (obind o (fun x => k))
  (at level 61, o at next level, right associativity) : py_scope.

Definition path_exists (p : path) : M bool :=
  fun w => (Ret (match files w p with Some _ => true | None => false end), w).

(** [with open(p) as file: file.read()] *)
Definition read_text (p : path) : M string :=
  fun w =>
    match files w p with
    | Some text => (Ret text, log (EvRead p) w)
    | None => (Raise FileNotFoundError, w)
    end.

(** [open(p, mode='w')]: the file is created or truncated. *)
Definition open_w (p : path) : M unit :=
  fun w => (Ret tt, log (EvOpenW p) (put_file p EmptyString w)).

(** [file.write(text)] on a file opened by [open_w]. *)
Definition write (p : path) (text : string) : M unit :=
  fun w =>
    let old := match files w p with Some t => t | None => EmptyString end in
    (Ret tt, log (EvWrite p text) (put_file p (old ++ text) w)).

Definition makedirs (p : path) : M unit :=
  fun w => (Ret tt, log (EvMakedirs p) w).

Definition print (line : string) : M unit :=
  fun w => (Ret tt, log (EvStdout line) w).

Definition eprint (line : string) : M unit :=
  fun w => (Ret tt, log (EvStderr line) w).

(** [input(prompt)] *)
Definition input (prompt : string) : M string :=
  fun w =>
    let w1 := log (EvPrompt prompt) w in
    match stdin w with
    | [] => (Raise EOFError, w1)
    | line :: rest => (Ret line, set_stdin rest w1)
    end.

(** [secrets.token_bytes(n)] and [os.urandom(n)] *)
Definition token_bytes (n : nat) : M string :=
  fun w =>
    (Ret (string_of_list_ascii (map (entropy w) (seq (consumed w) n))),
     consume n w).

(** [secrets.token_urlsafe()] with the default of 32 bytes. *)
Definition token_urlsafe : M string :=
  tok <- token_bytes 32 ;;
  ret (Base64.rstrip_pad (Base64.encode true tok)).

Fixpoint hex (s : string) : string :=
  match s with
  | EmptyString => EmptyString
  | String c r => Text.hex2 c ++ hex r
  end.

(** [str(uuid4())]: 16 random bytes with the version and variant bits set. *)
Definition uuid4 : M string :=
  raw <- token_bytes 16 ;;
  let b := fun i => match String.get i raw with Some c => c | None => Ascii.zero end in
  let b6 := Text.chr (Text.code (b 6) mod 16 + 64) in
  let b8 := Text.chr (Text.code (b 8) mod 64 + 128) in
  ret (hex (substring 0 4 raw) ++ "-"
       ++ hex (substring 4 2 raw) ++ "-"
       ++ hex (String b6 (substring 7 1 raw)) ++ "-"
       ++ hex (String b8 (substring 9 1 raw)) ++ "-"
       ++ hex (substring 10 6 raw)).

Definition PROGRAM : string := "config.py".

Definition tab : string := String (Text.chr 9) EmptyString.
Definition nl : string := String (Text.chr 10) EmptyString.

Import Json Py.

(** ** [class UsersConfig]

    The object is its private [__config]. *)

Module UsersConfig.

Definition save (config : json) : M unit :=
    open_w USERS_CONFIG_PATH ;;
    write USERS_CONFIG_PATH (dumps (Some 4) true config) ;;
    write USERS_CONFIG_PATH nl.

Definition __init__ : M json :=
    text <- read_text USERS_CONFIG_PATH ;;
    lift (loads text).

Definition __delitem__ (config uuid : json) : M json :=
    config' <- lift (delitem config uuid) ;;
    save config' ;;
    ret config'.

Definition __getitem__ (config uuid : json) : M json :=
    lift (getitem config uuid).

Definition __setitem__ (config : json) (uuid username : string) : M json :=
    config' <- lift (setitem_str config uuid (JStr username)) ;;
    save config' ;;
    ret config'.

End UsersConfig.

(** ** [class XrayConfig]

    [__clients] and [__stream_settings] are aliases of parts of [__config]:
    they are read from, and written back to, their place in the document. *)

Module XrayConfig.

Record t : Type := { config : json; network : json }.

Definition inbound (config : json) : outcome json :=
    inbounds <~ getitem_str config "inbounds" ;;
    getitem_int inbounds 0.

Definition clients_of (config : json) : outcome json :=
    first <~ inbound config ;;
    settings <~ getitem_str first "settings" ;;
    getitem_str settings "clients".

Definition stream_settings_of (config : json) : outcome json :=
    first <~ inbound config ;;
    getitem_str first "streamSettings".

(** The document after an in-place update of the client list. *)
Definition with_clients (config clients : json) : outcome json :=
    inbounds <~ getitem_str config "inbounds" ;;
    first <~ getitem_int inbounds 0 ;;
    settings <~ getitem_str first "settings" ;;
    settings' <~ setitem_str settings "clients" clients ;;
    first' <~ setitem_str first "settings" settings' ;;
    inbounds' <~ setitem_int inbounds 0 first' ;;
    setitem_str config "inbounds" inbounds'.

Definition __init__ : M t :=
    text <- read_text XRAY_CONFIG_PATH ;;
    config <- lift (loads text) ;;
    _ <- lift (clients_of config) ;;
    stream_settings <- lift (stream_settings_of config) ;;
    network <- lift (getitem_str stream_settings "network") ;;
    ret {| config := config; network := network |}.

Definition save (self : t) : M unit :=
    open_w XRAY_CONFIG_PATH ;;
    write XRAY_CONFIG_PATH (dumps (Some 4) true (config self)) ;;
    write XRAY_CONFIG_PATH nl.

Definition no_client : string := "No client with that sequence number.".

Definition add (self : t) : M (string * t) :=
    uuid <- uuid4 ;;
    clients <- lift (clients_of (config self)) ;;
    clients' <- lift (append clients (JObj [("id", JStr uuid)])) ;;
    config' <- lift (with_clients (config self) clients') ;;
    let self' := {| config := config'; network := network self |} in
    save self' ;;
    ret (uuid, self').

Definition count (self : t) : M Z :=
    clients <- lift (clients_of (config self)) ;;
    lift (len clients).

(** The result is [JNull] where Python returns [None]. *)
Definition get (self : t) (number : Z) : M json :=
    found <- try_except
               (clients <- lift (clients_of (config self)) ;;
                client <- lift (getitem_int clients (number - 1)) ;;
                ret (Some client))
               IndexError
               (eprint no_client ;; ret None) ;;
    match found with
    | None => ret JNull
    | Some client => lift (getitem_str client "id")
    end.

Fixpoint list_rows (users_config : json) (i : Z) (clients : list json) : M unit :=
    match clients with
    | [] => ret tt
    | client :: rest =>
        uuid <- lift (getitem_str client "id") ;;
        name <- UsersConfig.__getitem__ users_config uuid ;;
        name_text <- lift (to_str name) ;;
        uuid_text <- lift (to_str uuid) ;;
        print (NilZero.string_of_int (Z.to_int i) ++ tab ++ name_text
               ++ tab ++ tab ++ uuid_text) ;;
        list_rows users_config (i + 1) rest
    end.

Definition list (self : t) : M unit :=
    users_config <- UsersConfig.__init__ ;;
    print ("#" ++ tab ++ "Name" ++ tab ++ tab ++ "UUID") ;;
    clients <- lift (clients_of (config self)) ;;
    items <- lift (iter clients) ;;
    list_rows users_config 1 items.

Definition path (self : t) : M json :=
    match network self with
    | JStr net =>
        if String.eqb net "ws" then
          stream_settings <- lift (stream_settings_of (config self)) ;;
          ws <- lift (getitem_str stream_settings "wsSettings") ;;
          lift (getitem_str ws "path")
        else if String.eqb net "xhttp" then
          stream_settings <- lift (stream_settings_of (config self)) ;;
          xhttp <- lift (getitem_str stream_settings "xhttpSettings") ;;
          lift (getitem_str xhttp "path")
        else ret JNull
    | _ => ret JNull
    end.

(** The result is [JNull] where Python returns [None]. *)
Definition remove (self : t) (number : Z) : M (json * t) :=
    found <- try_except
               (clients <- lift (clients_of (config self)) ;;
                client <- lift (getitem_int clients (number - 1)) ;;
                uuid <- lift (getitem_str client "id") ;;
                clients' <- lift (delitem_int clients (number - 1)) ;;
                ret (Some (uuid, clients')))
               IndexError
               (eprint no_client ;; ret None) ;;
    match found with
    | None => ret (JNull, self)
    | Some (uuid, clients') =>
        config' <- lift (with_clients (config self) clients') ;;
        let self' := {| config := config'; network := network self |} in
        save self' ;;
        ret (uuid, self')
    end.

End XrayConfig.

(** ** The commands *)

Definition missing_configs : string :=
  "Necessary config files do not exist. Generate them with " ++ PROGRAM ++ " generate.".

(** [int(number)] followed by the check [number < 1], inside [try]. *)
Definition sequence_number (text : string) : M Z :=
  number <- lift (int_of_str text) ;;
  if (number <? 1)%Z then raise ValueError else ret number.

Definition client (action : string) : M unit :=
  caddy <- path_exists CADDY_CONFIG_PATH ;;
  users <- (if caddy then path_exists USERS_CONFIG_PATH else ret false) ;;
  xray <- (if users then path_exists XRAY_CONFIG_PATH else ret false) ;;
  if negb xray then eprint missing_configs
  else
    users_config <- UsersConfig.__init__ ;;
    xray_config <- XrayConfig.__init__ ;;
    if String.eqb action "add" then
      added <- XrayConfig.add xray_config ;;
      username <- input "What should I call this user (Enter the username and press Enter)? " ;;
      _ <- UsersConfig.__setitem__ users_config (fst added) username ;;
      ret tt
    else if String.eqb action "list" then
      XrayConfig.list xray_config
    else if String.eqb action "remove" then
      n <- XrayConfig.count xray_config ;;
      if (n =? 0)%Z then eprint "No clients defined."
      else
        XrayConfig.list xray_config ;;
        text <- input "Which client to remove (Enter the sequence number and press Enter)? " ;;
        number <- try_except (n <- sequence_number text ;; ret (Some n)) ValueError
                    (eprint "Not a valid sequence number." ;; ret None) ;;
        match number with
        | None => ret tt
        | Some number =>
            removed <- XrayConfig.remove xray_config number ;;
            match fst removed with
            | JNull => ret tt
            | uuid =>
                _ <- UsersConfig.__delitem__ users_config uuid ;;
                ret tt
            end
        end
    else ret tt.

(** [json.dumps(params)] of the dict literal of [connstr]. *)
Definition vmess_params (domain : string) (uuid net path : json) : json :=
  JObj [("add", JStr domain); ("aid", JStr "0"); ("host", JStr domain);
        ("id", uuid); ("net", net); ("path", path); ("port", JStr "443");
        ("ps", JStr domain); ("tls", JStr "tls"); ("type", JStr "none");
        ("v", JStr "2")].

Definition connstr (uuid_arg : option string) : M unit :=
  caddy <- path_exists CADDY_CONFIG_PATH ;;
  xray <- (if caddy then path_exists XRAY_CONFIG_PATH else ret false) ;;
  if negb xray then eprint missing_configs
  else
    config <- read_text CADDY_CONFIG_PATH ;;
    domain <- match search_domain config with
              | Some d => ret d
              | None => raise AttributeError
              end ;;
    xray_config <- XrayConfig.__init__ ;;
    n <- XrayConfig.count xray_config ;;
    if (n =? 0)%Z then
      eprint ("No clients defined. Add one with " ++ PROGRAM ++ " client add.")
    else
      uuid <- match uuid_arg with
              | Some u => ret (JStr u)
              | None =>
                  XrayConfig.list xray_config ;;
                  text <- input "Which client to create a connection string for (Enter the sequence number and press Enter)? " ;;
                  number <- try_except (n <- sequence_number text ;; ret (Some n)) ValueError
                              (eprint "Not a valid sequence number." ;; ret None) ;;
                  match number with
                  | None => ret JNull
                  | Some number => XrayConfig.get xray_config number
                  end
              end ;;
      match uuid, uuid_arg with
      | JNull, None => ret tt
      | _, _ =>
          path <- XrayConfig.path xray_config ;;
          let params := dumps None false
                          (vmess_params domain uuid (XrayConfig.network xray_config) path) in
          print ("vmess://" ++ Base64.b64encode (Base64.utf8_encode params))
      end.

Definition generate (domain transport : string) : M unit :=
  token <- token_urlsafe ;;
  let path := "/" ++ token in
  caddy_config <- read_text (TEMPLATE transport "Caddyfile") ;;
  makedirs CADDY_CONFIG_PATH ;;
  open_w CADDY_CONFIG_PATH ;;
  text <- lift (format caddy_config [("domain", domain); ("path", path)]) ;;
  write CADDY_CONFIG_PATH text ;;
  makedirs USERS_CONFIG_PATH ;;
  open_w USERS_CONFIG_PATH ;;
  write USERS_CONFIG_PATH ("{}" ++ nl) ;;
  xray_config <- read_text (TEMPLATE transport "config.json") ;;
  makedirs XRAY_CONFIG_PATH ;;
  open_w XRAY_CONFIG_PATH ;;
  text <- lift (format xray_config [("path", path)]) ;;
  write XRAY_CONFIG_PATH text.

(** ** The argument parser

    The fragment of [argparse] the declarations use: a required
    sub-command, options given as a flag followed by its value, a positional
    with [choices], and defaults.  Abbreviated flags, [--flag=value], [-h]
    and values that start with a dash are outside the model. *)

Module Argparse.

Record option_spec : Type := {
    flags : list string;
    dest : string;
    default : option string;
    choices : option (list string)
  }.

Definition namespace : Type := list (string * option string).

Definition looks_like_option (tok : string) : bool :=
    match tok with
    | String c (String _ _) => Ascii.eqb c "-"
    | _ => false
    end.

Definition mem (x : string) (l : list string) : bool :=
    existsb (String.eqb x) l.

Fixpoint find_spec (tok : string) (specs : list option_spec) : option option_spec :=
    match specs with
    | [] => None
    | spec :: rest => if mem tok (flags spec) then Some spec else find_spec tok rest
    end.

Definition allowed (spec : option_spec) (v : string) : bool :=
    match choices spec with
    | Some cs => mem v cs
    | None => true
    end.

Fixpoint set_dest (d : string) (v : option string) (ns : namespace) : namespace :=
    match ns with
    | [] => [(d, v)]
    | (d', v') :: r =>
        if String.eqb d d' then (d', v) :: r else (d', v') :: set_dest d v r
    end.

Fixpoint get_dest (d : string) (ns : namespace) : option string :=
    match ns with
    | [] => None
    | (d', v) :: r => if String.eqb d d' then v else get_dest d r
    end.

Definition defaults (specs : list option_spec) : namespace :=
    map (fun spec => (dest spec, default spec)) specs.

Fixpoint parse_optionals (specs : list option_spec) (argv : list string)
      (ns : namespace) : outcome namespace :=
    match argv with
    | [] => Ret ns
    | tok :: rest =>
        match find_spec tok specs with
        | Some spec =>
            match rest with
            | [] => Raise SystemExit
            | v :: rest' =>
                if looks_like_option v then Beyond
                else if allowed spec v
                then parse_optionals specs rest' (set_dest (dest spec) (Some v) ns)
                else Raise SystemExit
            end
        | None => if looks_like_option tok then Beyond else Raise SystemExit
        end
    end.

(** [client_parser.add_argument('action', choices=('add', 'list', 'remove'))] *)
Definition action_choices : list string := ["add"; "list"; "remove"].

(** [connstr_parser.add_argument('-u', '--uuid')] *)
Definition connstr_specs : list option_spec :=
    [ {| flags := ["-u"; "--uuid"]; dest := "uuid"; default := None; choices := None |} ].

(** [generate_parser.add_argument('-d', '--domain', default='localhost')] and
      [generate_parser.add_argument('-t', '--transport', choices=('ws', 'xhttp'),
      default='xhttp')] *)
Definition generate_specs : list option_spec :=
    [ {| flags := ["-d"; "--domain"]; dest := "domain";
         default := Some "localhost"; choices := None |};
      {| flags := ["-t"; "--transport"]; dest := "transport";
         default := Some "xhttp"; choices := Some ["ws"; "xhttp"] |} ].

Inductive args : Type :=
  | ClientArgs (action : string)
  | ConnstrArgs (uuid : option string)
  | GenerateArgs (domain transport : string).

Definition parse_client (argv : list string) : outcome args :=
    match argv with
    | [a] =>
        if looks_like_option a then Beyond
        else if mem a action_choices then Ret (ClientArgs a) else Raise SystemExit
    | [] => Raise SystemExit
    | _ => if existsb looks_like_option argv then Beyond else Raise SystemExit
    end.

Definition parse_connstr (argv : list string) : outcome args :=
    ns <~ parse_optionals connstr_specs argv (defaults connstr_specs) ;;
    Ret (ConnstrArgs (get_dest "uuid" ns)).

Definition parse_generate (argv : list string) : outcome args :=
    ns <~ parse_optionals generate_specs argv (defaults generate_specs) ;;
    match get_dest "domain" ns, get_dest "transport" ns with
    | Some d, Some t => Ret (GenerateArgs d t)
    | _, _ => Beyond
    end.

(** [parser.parse_args()] on the arguments after the program name. *)
Definition parse_args (argv : list string) : outcome args :=
    match argv with
    | [] => Raise SystemExit
    | cmd :: rest =>
        if String.eqb cmd "client" then parse_client rest
        else if String.eqb cmd "connstr" then parse_connstr rest
        else if String.eqb cmd "generate" then parse_generate rest
        else if looks_like_option cmd then Beyond
        else Raise SystemExit
    end.

End Argparse.

(** [args = parser.parse_args(); args.func(args)] *)
Definition main (argv : list string) : M unit :=
  parsed <- lift (Argparse.parse_args argv) ;;
  match parsed with
  | Argparse.ClientArgs action => client action
  | Argparse.ConnstrArgs uuid => connstr uuid
  | Argparse.GenerateArgs domain transport => generate domain transport
  end.

(** ** Sample runs *)

Module Sample.

Definition caddy_template : string :=
    "{domain} {{" ++ nl ++ "    reverse_proxy {path} 127.0.0.1:1234" ++ nl ++ "}}" ++ nl.

Definition xray_template : string :=
    "{{" ++ nl
    ++ "  " ++ encode_string "inbounds" ++ ": [{{"
    ++ encode_string "port" ++ ": 1234, "
    ++ encode_string "settings" ++ ": {{" ++ encode_string "clients" ++ ": []}}, "
    ++ encode_string "streamSettings" ++ ": {{"
    ++ encode_string "network" ++ ": " ++ encode_string "xhttp" ++ ", "
    ++ encode_string "xhttpSettings" ++ ": {{"
    ++ encode_string "path" ++ ": " ++ encode_string "{path}" ++ "}}}}}}]" ++ nl
    ++ "}}" ++ nl.

Definition empty : world :=
    {| caddy_file := None; users_file := None; xray_file := None;
       templates := fun transport name =>
         if String.eqb transport "xhttp" then
           if String.eqb name "Caddyfile" then Some caddy_template
           else if String.eqb name "config.json" then Some xray_template
           else None
         else None;
       stdin := [];
       entropy := fun i => Text.chr (N.of_nat (i * 37 + 11) mod 256);
       consumed := 0;
       trace := [] |}.

Definition with_input (lines : list string) (w : world) : world :=
    {| caddy_file := caddy_file w; users_file := users_file w;
       xray_file := xray_file w; templates := templates w;
       stdin := lines; entropy := entropy w;
       consumed := consumed w; trace := [] |}.

Definition run (argv : list string) (lines : list string) (w : world) : world :=
    snd (main argv (with_input lines w)).

Definition generated : world := run ["generate"; "-d"; "example.com"] [] empty.
Definition one_client : world := run ["client"; "add"] ["alice"] generated.
Definition two_clients : world := run ["client"; "add"] ["bob"] one_client.

End Sample.


(** ** Invariants of loaded documents *)

Module JsonInvariants.
Import JsonRoundTrip.





Lemma dict_set_values (P : json -> Prop) k v d :
    P v -> Forall (fun kv => P (snd kv)) d ->
    Forall (fun kv => P (snd kv)) (dict_set k v d).
Proof.
    intros Hv. induction 1 as [|[k' v'] d Hkv Hd IH]; cbn [dict_set].
    - repeat constructor. exact Hv.
    - destruct (String.eqb k k'); constructor; auto.
Qed.





(** *** Subscripts on a normalised document *)

Lemma getitem_str_norm sort_keys v k :
    wf v ->
    getitem_str (norm sort_keys v) k = omap (norm sort_keys) (getitem_str v k).
Proof.
    intros Hwf. destruct v; try reflexivity.
    apply wf_obj in Hwf. destruct Hwf as [Hn _].
    cbn [norm getitem_str]. rewrite dict_get_norm by assumption.
    destruct (dict_get k d); reflexivity.
Qed.

Lemma getitem_int_arr_norm sort_keys l i :
    getitem_int (norm sort_keys (JArr l)) i
    = omap (norm sort_keys) (getitem_int (JArr l) i).
Proof.
    cbn [norm getitem_int]. rewrite length_map.
    destruct (norm_index (length l) i) as [n|]; [|reflexivity].
    rewrite nth_error_map. destruct (nth_error l n); reflexivity.
Qed.

Lemma wf_getitem_str v k x : wf v -> getitem_str v k = Ret x -> wf x.
Proof.
    intros Hwf. destruct v; try discriminate.
    apply wf_obj in Hwf. destruct Hwf as [_ Hv]. cbn [getitem_str].
    destruct (dict_get k d) as [y|] eqn:E; [|discriminate].
    intros H. injection H as <-.
    induction d as [|[k' v'] d IH]; [discriminate|].
    cbn [dict_get] in E. inversion Hv; subst.
    destruct (String.eqb k k'); [injection E as <-; assumption | auto].
Qed.

Lemma wf_getitem_int v i x : wf v -> getitem_int v i = Ret x -> wf x.
Proof.
    intros Hwf. destruct v; try discriminate; cbn [getitem_int].
    - destruct (norm_index _ i) as [n|]; [|discriminate].
      destruct (nth_error (chars s) n) as [y|] eqn:E; [|discriminate].
      intros H. injection H as <-. unfold chars in E.
      apply nth_error_In, in_map_iff in E. destruct E as (c & <- & _). exact I.
    - apply wf_arr in Hwf.
      destruct (norm_index _ i) as [n|]; [|discriminate].
      destruct (nth_error l n) as [y|] eqn:E; [|discriminate].
      intros H. injection H as <-.
      rewrite Forall_forall in Hwf. apply Hwf. eapply nth_error_In. exact E.
Qed.

End JsonInvariants.

(** ** Running the methods *)

Module Runs.
Import JsonRoundTrip JsonInvariants.

(** The world after [open(p, 'w')], [write(text)] and [write(newline)]. *)
Definition persisted (p : path) (text : string) (w : world) : world :=
    log (EvWrite p nl)
      (put_file p (text ++ nl)
         (log (EvWrite p text) (put_file p text (log (EvOpenW p) (put_file p EmptyString w))))).

Lemma users_save_run config w :
    UsersConfig.save config w
    = (Ret tt, persisted USERS_CONFIG_PATH (dumps (Some 4) true config) w).
Proof. reflexivity. Qed.

Lemma xray_save_run self w :
    XrayConfig.save self w
    = (Ret tt, persisted XRAY_CONFIG_PATH (dumps (Some 4) true (XrayConfig.config self)) w).
Proof. reflexivity. Qed.

Lemma uuid4_run w : exists uuid, uuid4 w = (Ret uuid, consume 16 w).
Proof. eexists. reflexivity. Qed.

Lemma dict_set_same k v d : dict_get k d = Some v -> dict_set k v d = d.
Proof.
    induction d as [|[k' v'] d IH]; cbn [dict_get dict_set]; [discriminate|].
    destruct (String.eqb k k'); [intros H; injection H as ->; reflexivity|].
    intros H. now rewrite IH.
Qed.

Lemma dict_set_set k v1 v2 d :
    dict_set k v2 (dict_set k v1 d) = dict_set k v2 d.
Proof.
    induction d as [|[k' v'] d IH]; cbn [dict_set].
    - now rewrite String.eqb_refl.
    - destruct (String.eqb k k') eqn:E; cbn [dict_set]; rewrite E; [reflexivity|].
      now rewrite IH.
Qed.

(** The shape [XrayConfig.__init__] relies on:
      [config['inbounds'][0]['settings']['clients']]. *)
Definition shaped (config : json) (top : dict) (others : list json)
      (first settings : dict) : Prop :=
    config = JObj top /\
    dict_get "inbounds" top = Some (JArr (JObj first :: others)) /\
    dict_get "settings" first = Some (JObj settings).

Lemma getitem_int_first x l : getitem_int (JArr (x :: l)) 0 = Ret x.
Proof. reflexivity. Qed.

Lemma clients_of_shape config clients :
    XrayConfig.clients_of config = Ret clients ->
    exists top others first settings,
      shaped config top others first settings /\
      dict_get "clients" settings = Some clients.
Proof.
    unfold XrayConfig.clients_of, XrayConfig.inbound, obind.
    destruct config as [| | | | |top]; try discriminate. cbn [getitem_str].
    destruct (dict_get "inbounds" top) as [inb|] eqn:E1; [|discriminate].
    destruct inb as [| | |s|l|]; try discriminate.
    { cbn [getitem_int].
      destruct (norm_index _ 0); [|discriminate].
      destruct (nth_error (chars s) n) as [y|] eqn:E; [|discriminate].
      unfold chars in E. apply nth_error_In, in_map_iff in E.
      destruct E as (c & <- & _). discriminate. }
    destruct l as [|x others]; [discriminate|]. rewrite getitem_int_first.
    destruct x as [| | | | |first]; try discriminate. cbn [getitem_str].
    destruct (dict_get "settings" first) as [st|] eqn:E2; [|discriminate].
    destruct st as [| | | | |settings]; try discriminate. cbn [getitem_str].
    destruct (dict_get "clients" settings) as [c|] eqn:E3; [|discriminate].
    intros H. injection H as <-.
    exists top, others, first, settings. repeat split; assumption.
Qed.

Definition reshaped (top : dict) (others : list json) (first settings : dict)
      (clients : json) : json :=
    JObj (dict_set "inbounds"
            (JArr (JObj (dict_set "settings"
                           (JObj (dict_set "clients" clients settings)) first)
                   :: others)) top).

Lemma with_clients_shaped config top others first settings clients :
    shaped config top others first settings ->
    XrayConfig.with_clients config clients
    = Ret (reshaped top others first settings clients).
Proof.
    intros (-> & E1 & E2).
    unfold XrayConfig.with_clients, obind. cbn [getitem_str].
    rewrite E1, getitem_int_first. cbn [getitem_str]. rewrite E2. reflexivity.
Qed.

Lemma reshaped_shaped top others first settings clients :
    shaped (reshaped top others first settings clients) 
      (dict_set "inbounds"
            (JArr (JObj (dict_set "settings"
                           (JObj (dict_set "clients" clients settings)) first)
                   :: others)) top)
      others
      (dict_set "settings" (JObj (dict_set "clients" clients settings)) first)
      (dict_set "clients" clients settings).
Proof.
    repeat split; apply dict_get_set_same.
Qed.

Lemma clients_of_shaped config top others first settings :
    shaped config top others first settings ->
    XrayConfig.clients_of config
    = match dict_get "clients" settings with
      | Some c => Ret c
      | None => Raise KeyError
      end.
Proof.
    intros (-> & E1 & E2).
    unfold XrayConfig.clients_of, XrayConfig.inbound, obind. cbn [getitem_str].
    rewrite E1, getitem_int_first. cbn [getitem_str]. rewrite E2. reflexivity.
Qed.

Lemma clients_of_with_clients config clients clients' :
    XrayConfig.clients_of config = Ret clients ->
    exists config',
      XrayConfig.with_clients config clients' = Ret config' /\
      XrayConfig.clients_of config' = Ret clients' /\
      XrayConfig.stream_settings_of config' = XrayConfig.stream_settings_of config /\
      (forall c, XrayConfig.with_clients config' c = XrayConfig.with_clients config c).
Proof.
    intros H. apply clients_of_shape in H.
    destruct H as (top & others & first & settings & Hs & Hc).
    eexists. split; [exact (with_clients_shaped _ _ _ _ _ _ Hs)|]. split; [|split].
    - rewrite (clients_of_shaped _ _ _ _ _ (reshaped_shaped _ _ _ _ _)).
      now rewrite dict_get_set_same.
    - destruct Hs as (-> & E1 & E2).
      unfold XrayConfig.stream_settings_of, XrayConfig.inbound, reshaped, obind.
      cbn [getitem_str]. rewrite dict_get_set_same, E1, !getitem_int_first.
      cbn [getitem_str]. rewrite dict_get_set_other by discriminate. reflexivity.
    - intros c. rewrite (with_clients_shaped _ _ _ _ _ c (reshaped_shaped _ _ _ _ _)).
      rewrite (with_clients_shaped _ _ _ _ _ c Hs).
      unfold reshaped. now rewrite !dict_set_set.
Qed.

Lemma with_clients_same config clients :
    XrayConfig.clients_of config = Ret clients ->
    XrayConfig.with_clients config clients = Ret config.
Proof.
    intros H. apply clients_of_shape in H.
    destruct H as (top & others & first & settings & Hs & Hc).
    rewrite (with_clients_shaped _ _ _ _ _ clients Hs).
    destruct Hs as (-> & E1 & E2). unfold reshaped.
    rewrite (dict_set_same _ _ _ Hc), (dict_set_same _ _ _ E2), (dict_set_same _ _ _ E1).
    reflexivity.
Qed.

End Runs.

Import Runs.

(** ** Missing configuration files *)

(** C8. The [client] command, for every action: when the Caddy config, the
    users config or the Xray config does not exist, it prints the error
    message on standard error and returns; it reads no file, writes no file
    and asks for no input. *)
Theorem client_requires_configs (action : string) (w : world) :
  files w CADDY_CONFIG_PATH = None \/ files w USERS_CONFIG_PATH = None
  \/ files w XRAY_CONFIG_PATH = None ->
  client action w = (Ret tt, log (EvStderr missing_configs) w).
Proof.
  cbn [files]. intros H. unfold client, bind, path_exists. cbn [files].
  destruct (caddy_file w); [|reflexivity].
  destruct (users_file w); [|reflexivity].
  destruct (xray_file w); [|reflexivity].
  destruct H as [H|[H|H]]; discriminate.
Qed.

Lemma client_requires_configs_witness :
  files Sample.empty CADDY_CONFIG_PATH = None /\
  client "add" Sample.empty = (Ret tt, log (EvStderr missing_configs) Sample.empty).
Proof.
  split; [reflexivity|].
  apply (client_requires_configs "add" Sample.empty). left. reflexivity.
Defined.

(** ** Sequence numbers *)

Lemma norm_index_outside (len : nat) (n : Z) :
  (Z.of_nat len < n \/ n <= - Z.of_nat len)%Z -> norm_index len (n - 1) = None.
Proof.
  intros H. unfold norm_index.
  destruct (Z.leb_spec 0 (n - 1)).
  - destruct (Z.ltb_spec (n - 1) (Z.of_nat len)); [lia | reflexivity].
  - destruct (Z.leb_spec 0 (Z.of_nat len + (n - 1))); [lia | reflexivity].
Qed.


(** What the claim about out-of-range numbers asks of one call of [get] and
    one call of [remove]: the error message, no UUID, and nothing changed. *)
Definition rejects (self : XrayConfig.t) (n : Z) (w : world) : Prop :=
  XrayConfig.get self n w = (Ret JNull, log (EvStderr XrayConfig.no_client) w)
  /\ XrayConfig.remove self n w
     = (Ret (JNull, self), log (EvStderr XrayConfig.no_client) w).

Definition one_client_config : XrayConfig.t :=
  {| XrayConfig.config :=
       JObj [("inbounds",
              JArr [JObj [("settings", JObj [("clients", JArr [JObj [("id", JStr "a")]])]);
                          ("streamSettings", JObj [("network", JStr "ws")])]])];
     XrayConfig.network := JStr "ws" |}.

(** C1, as stated, fails: with one client in the list, the sequence number 0
    is index -1, which Python resolves to the last client; [get] returns its
    UUID and prints no error. *)
Lemma out_of_range_zero_counterexample :
  ~ (forall self clients n w,
       XrayConfig.clients_of (XrayConfig.config self) = Ret (JArr clients) ->
       (n < 1 \/ Z.of_nat (length clients) < n)%Z ->
       rejects self n w).
Proof.
  intros H.
  destruct (H one_client_config [JObj [("id", JStr "a")]] 0%Z Sample.empty
              eq_refl (or_introl eq_refl)) as [Hget _].
  vm_compute in Hget. discriminate.
Qed.

(** C1, amended. For every client list, a sequence number above the count
    (count + 1 in particular) or at most minus the count makes [get] and
    [remove] print the error, return no UUID and leave the object, the files
    and the input untouched.  A number below 1 does not reach them from the
    commands: the check both commands run on the typed text prints
    [Not a valid sequence number.] and yields no number. *)
Theorem get_remove_out_of_range (self : XrayConfig.t) (clients : list json)
    (n : Z) (w : world) :
  XrayConfig.clients_of (XrayConfig.config self) = Ret (JArr clients) ->
  (Z.of_nat (length clients) < n \/ n <= - Z.of_nat (length clients))%Z ->
  rejects self n w
  /\ (forall text m w0,
        int_of_str text = Ret m -> (m < 1)%Z ->
        try_except (k <- sequence_number text ;; ret (Some k)) ValueError
          (eprint "Not a valid sequence number." ;; ret None) w0
        = (Ret None, log (EvStderr "Not a valid sequence number.") w0)).
Proof.
  intros Hc Hn. split; [split|].
  - unfold XrayConfig.get, bind, try_except, lift. rewrite Hc.
    cbn [getitem_int]. rewrite (norm_index_outside _ _ Hn). reflexivity.
  - unfold XrayConfig.remove, bind, try_except, lift. rewrite Hc.
    cbn [getitem_int]. rewrite (norm_index_outside _ _ Hn). reflexivity.
  - intros text m w0 Hm Hlt.
    unfold sequence_number, bind, try_except, lift, raise, lift. rewrite Hm.
    destruct (Z.ltb_spec m 1); [reflexivity | lia].
Qed.

Lemma get_remove_out_of_range_witness :
  rejects one_client_config 2 Sample.empty.
Proof.
  apply (get_remove_out_of_range one_client_config [JObj [("id", JStr "a")]] 2
           Sample.empty eq_refl).
  left. reflexivity.
Defined.

(** ** Adding and removing a client *)

Lemma nth_error_last {A} (l : list A) (x : A) :
  nth_error (l ++ [x])%list (length l) = Some x.
Proof. induction l as [|y l IH]; [reflexivity | exact IH]. Qed.

Lemma remove_nth_last {A} (l : list A) (x : A) :
  remove_nth (length l) (l ++ [x])%list = l.
Proof. induction l as [|y l IH]; [reflexivity | cbn; now rewrite IH]. Qed.

(** C3. For every client list: [add] appends a client with a fresh UUID and
    returns that UUID; the new client's sequence number is the new count;
    [remove] with that number returns the same UUID, and afterwards the
    object is the one before the [add], so the count is the one before. *)
Theorem add_then_remove (config network : json) (clients : list json) (w : world) :
  XrayConfig.clients_of config = Ret (JArr clients) ->
  let self := {| XrayConfig.config := config; XrayConfig.network := network |} in
  exists uuid self1 w1 w2,
    XrayConfig.add self w = (Ret (uuid, self1), w1)
    /\ XrayConfig.count self w = (Ret (Z.of_nat (length clients)), w)
    /\ XrayConfig.count self1 w1 = (Ret (Z.of_nat (length clients) + 1)%Z, w1)
    /\ XrayConfig.remove self1 (Z.of_nat (length clients) + 1) w1
       = (Ret (JStr uuid, self), w2)
    /\ XrayConfig.count self w2 = (Ret (Z.of_nat (length clients)), w2).
Proof.
  intros Hc self. subst self.
  destruct (uuid4_run w) as [uuid Hu].
  destruct (clients_of_with_clients config (JArr clients)
              (JArr (clients ++ [JObj [("id", JStr uuid)]])%list) Hc)
    as (config1 & Hw1 & Hc1 & _ & Hback).
  exists uuid, {| XrayConfig.config := config1; XrayConfig.network := network |}.
  eexists. eexists.
  assert (Hcount : forall c l w', XrayConfig.clients_of c = Ret (JArr l) ->
            XrayConfig.count {| XrayConfig.config := c; XrayConfig.network := network |} w'
            = (Ret (Z.of_nat (length l)), w')).
  { intros c l w' E. unfold XrayConfig.count, bind, lift. cbn [XrayConfig.config].
    now rewrite E. }
  split; [|split; [|split; [|split]]].
  - unfold XrayConfig.add, bind, lift. rewrite Hu.
    cbn [XrayConfig.config XrayConfig.network].
    rewrite Hc. cbn [append]. rewrite Hw1. rewrite xray_save_run. reflexivity.
  - now apply Hcount.
  - rewrite (Hcount _ _ _ Hc1). rewrite length_app. cbn [length].
    do 2 f_equal. lia.
  - unfold XrayConfig.remove, bind, try_except, lift. cbn [XrayConfig.config].
    rewrite Hc1. cbn [getitem_int delitem_int].
    replace (Z.of_nat (length clients) + 1 - 1)%Z with (Z.of_nat (length clients)) by lia.
    assert (Hi : norm_index (length (clients ++ [JObj [("id", JStr uuid)]])%list)
                   (Z.of_nat (length clients)) = Some (length clients)).
    { unfold norm_index. rewrite length_app. cbn [length].
      destruct (Z.leb_spec 0 (Z.of_nat (length clients))); [|lia].
      destruct (Z.ltb_spec (Z.of_nat (length clients))
                  (Z.of_nat (length clients + 1))); [|lia].
      now rewrite Nat2Z.id. }
    rewrite Hi, nth_error_last. cbn [getitem_str dict_get].
    change (String.eqb "id" "id") with true. unfold ret. cbv beta match zeta.
    rewrite remove_nth_last, Hback, (with_clients_same _ _ Hc).
    cbn [XrayConfig.network]. rewrite xray_save_run. reflexivity.
  - now apply Hcount.
Qed.

Lemma add_then_remove_witness :
  exists uuid self1 w1 w2,
    XrayConfig.add one_client_config Sample.empty = (Ret (uuid, self1), w1)
    /\ XrayConfig.count one_client_config Sample.empty = (Ret 1%Z, Sample.empty)
    /\ XrayConfig.count self1 w1 = (Ret 2%Z, w1)
    /\ XrayConfig.remove self1 2 w1 = (Ret (JStr uuid, one_client_config), w2)
    /\ XrayConfig.count one_client_config w2 = (Ret 1%Z, w2).
Proof.
  exact (add_then_remove (XrayConfig.config one_client_config) (JStr "ws")
           [JObj [("id", JStr "a")]] Sample.empty eq_refl).
Defined.

(** ** Listing the clients *)

Definition same_files (w w' : world) : Prop := forall p, files w' p = files w p.


Lemma same_files_log e w w' : same_files w w' -> same_files w (log e w').
Proof. intros H p. rewrite <- (H p). destruct p; reflexivity. Qed.

Lemma dict_get_in k v (d : dict) : dict_get k d = Some v -> In (k, v) d.
Proof.
  induction d as [|[k' v'] d IH]; cbn [dict_get]; [discriminate|].
  destruct (String.eqb_spec k k') as [->|].
  - intros H. injection H as ->. now left.
  - intros H. right. now apply IH.
Qed.

(** The clients of the data model: objects whose [id] is a string. *)
Definition client_id (client : json) (uuid : string) : Prop :=
  getitem_str client "id" = Ret (JStr uuid).




(** ** Writing a document and loading it again *)

(** Equality of documents: the same values, dicts compared as mappings
    (without regard to the order of their keys), lists in order. *)
Fixpoint json_equiv (a b : json) : Prop :=
  match a, b with
  | JNull, JNull => True
  | JBool x, JBool y => x = y
  | JInt x, JInt y => x = y
  | JStr x, JStr y => x = y
  | JArr l, JArr l' =>
      (fix all2 (l l' : list json) : Prop :=
         match l, l' with
         | [], [] => True
         | x :: r, y :: r' => json_equiv x y /\ all2 r r'
         | _, _ => False
         end) l l'
  | JObj d, JObj d' =>
      length d = length d' /\
      (fix all (d : dict) : Prop :=
         match d with
         | [] => True
         | (k, x) :: r =>
             match dict_get k d' with
             | Some y => json_equiv x y
             | None => False
             end /\ all r
         end) d
  | _, _ => False
  end.

Lemma json_equiv_arr (l l' : list json) :
  json_equiv (JArr l) (JArr l') <-> Forall2 json_equiv l l'.
Proof.
  revert l'. induction l as [|x l IH]; intros [|y l']; cbn.
  - split; auto.
  - split; [tauto | intros H; inversion H].
  - split; [tauto | intros H; inversion H].
  - split.
    + intros [Hx Hl]. constructor; [exact Hx | now apply IH].
    + intros H. inversion H; subst. split; [assumption | now apply IH].
Qed.

Lemma json_equiv_obj (d d' : dict) :
  json_equiv (JObj d) (JObj d') <->
  length d = length d' /\
  Forall (fun kv => exists y, dict_get (fst kv) d' = Some y /\ json_equiv (snd kv) y) d.
Proof.
  cbn. split; intros [Hl H]; split; try exact Hl; clear Hl.
  - induction d as [|[k x] d IH]; constructor.
    + cbn [fst snd]. destruct H as [H _].
      destruct (dict_get k d') as [y|]; [eauto | contradiction].
    + apply IH. tauto.
  - induction d as [|[k x] d IH]; [exact I|].
    inversion H as [|? ? (y & Hy & Hxy) Hd]; subst. cbn [fst snd] in *.
    rewrite Hy. split; [exact Hxy | now apply IH].
Qed.

Lemma dict_get_first k x (d : dict) :
  NoDup (map fst d) -> In (k, x) d -> dict_get k d = Some x.
Proof.
  induction d as [|[k' x'] d IH]; cbn [map fst dict_get]; intros Hn Hin; [contradiction|].
  inversion Hn as [|? ? Hk Hd]; subst.
  destruct Hin as [E|Hin].
  - injection E as -> ->. now rewrite String.eqb_refl.
  - destruct (String.eqb_spec k k') as [->|]; [|now apply IH].
    exfalso. apply Hk. change k' with (fst (k', x)). now apply in_map.
Qed.

(** What is read back is the document that was written. *)
Lemma json_equiv_norm sort_keys v : wf v -> json_equiv v (norm sort_keys v).
Proof.
  induction v as [|b|z|s|l IHl|d IHd] using json_ind; intros Hwf;
    try exact I; try reflexivity.
  - cbn [norm]. apply json_equiv_arr. apply wf_arr in Hwf.
    induction IHl as [|x l Hx _ IH]; cbn [map]; constructor;
      inversion Hwf; subst; auto.
  - cbn [norm]. apply wf_obj in Hwf. destruct Hwf as [Hn Hv].
    apply json_equiv_obj. split.
    + rewrite JsonRoundTrip.order_map_length. reflexivity.
    + rewrite Forall_forall. intros [k x] Hin. cbn [fst snd].
      exists (norm sort_keys x). split.
      * rewrite JsonRoundTrip.dict_get_norm by assumption.
        now rewrite (dict_get_first k x d Hn Hin).
      * rewrite Forall_forall in IHd, Hv.
        exact (IHd _ Hin (Hv _ Hin)).
Qed.

Lemma inbound_norm sort_keys config x :
  wf config -> XrayConfig.inbound config = Ret x ->
  XrayConfig.inbound (norm sort_keys config) = Ret (norm sort_keys x) /\ wf x.
Proof.
  intros Hwf. unfold XrayConfig.inbound, obind.
  rewrite JsonInvariants.getitem_str_norm by assumption.
  destruct (getitem_str config "inbounds") as [inb| |] eqn:E; [|discriminate..].
  pose proof (JsonInvariants.wf_getitem_str _ _ _ Hwf E) as Hinb.
  cbn [omap]. intros Hx. split; [|exact (JsonInvariants.wf_getitem_int _ _ _ Hinb Hx)].
  destruct inb; try discriminate.
  - cbn [norm]. rewrite Hx. cbn [getitem_int] in Hx.
    destruct (norm_index _ 0) as [n|]; [|discriminate].
    destruct (nth_error (chars s) n) as [y|] eqn:Ey; [|discriminate].
    injection Hx as <-. unfold chars in Ey.
    apply nth_error_In, in_map_iff in Ey. destruct Ey as (c & <- & _). reflexivity.
  - rewrite JsonInvariants.getitem_int_arr_norm, Hx. reflexivity.
Qed.

Lemma clients_of_norm sort_keys config clients :
  wf config -> XrayConfig.clients_of config = Ret clients ->
  XrayConfig.clients_of (norm sort_keys config) = Ret (norm sort_keys clients).
Proof.
  intros Hwf. unfold XrayConfig.clients_of, obind.
  destruct (XrayConfig.inbound config) as [first| |] eqn:E; [|discriminate..].
  destruct (inbound_norm sort_keys _ _ Hwf E) as [-> Hfirst].
  rewrite JsonInvariants.getitem_str_norm by assumption.
  destruct (getitem_str first "settings") as [st| |] eqn:Es; [|discriminate..].
  pose proof (JsonInvariants.wf_getitem_str _ _ _ Hfirst Es) as Hst.
  cbn [omap]. rewrite JsonInvariants.getitem_str_norm by assumption.
  intros ->. reflexivity.
Qed.

Lemma stream_settings_of_norm sort_keys config ss :
  wf config -> XrayConfig.stream_settings_of config = Ret ss ->
  XrayConfig.stream_settings_of (norm sort_keys config) = Ret (norm sort_keys ss)
  /\ wf ss.
Proof.
  intros Hwf. unfold XrayConfig.stream_settings_of, obind.
  destruct (XrayConfig.inbound config) as [first| |] eqn:E; [|discriminate..].
  destruct (inbound_norm sort_keys _ _ Hwf E) as [-> Hfirst].
  rewrite JsonInvariants.getitem_str_norm by assumption.
  intros Hss. rewrite Hss. split; [reflexivity|].
  exact (JsonInvariants.wf_getitem_str _ _ _ Hfirst Hss).
Qed.

(** Distinct keys, for a document given in full. *)
Ltac wf_concrete :=
  simpl;
  repeat match goal with
         | |- _ /\ _ => split
         | |- NoDup _ => constructor
         | |- ~ In _ _ => simpl; intuition discriminate
         | |- True => exact I
         end.

Lemma delimited_nl_tail : JsonRoundTrip.delimited nl /\ skip_ws nl = EmptyString.
Proof. split; reflexivity. Qed.

Lemma loads_saved (v : json) :
  wf v -> loads (dumps (Some 4) true v ++ nl) = Ret (norm true v).
Proof.
  intros Hwf. destruct delimited_nl_tail as [Hd Hs].
  now apply JsonRoundTrip.loads_dumps.
Qed.

Lemma dict_get_names k (users : dict) :
  Forall (fun kv => exists s, snd kv = JStr s) users ->
  option_map (norm true) (dict_get k users) = dict_get k users.
Proof.
  intros H. destruct (dict_get k users) as [x|] eqn:E; [|reflexivity].
  apply dict_get_in in E. rewrite Forall_forall in H.
  destruct (H _ E) as [s Hs]. cbn [snd] in Hs. subst x. reflexivity.
Qed.

Lemma norm_id_clients sort_keys (clients : list json) :
  Forall (fun c => exists u, c = JObj [("id", JStr u)]) clients ->
  map (norm sort_keys) clients = clients.
Proof.
  induction 1 as [|c clients [u ->] _ IH]; [reflexivity|].
  cbn [map]. rewrite IH. f_equal. destruct sort_keys; reflexivity.
Qed.

(** C5. Round trip through the files.  A users mapping of names written by
    [save] and loaded by [UsersConfig()] is the same mapping: every key has
    the value it had.  An Xray config written by [save] and loaded by
    [XrayConfig()] is the same document, with the same clients in the same
    order: client for client an equal object, and the identical list when
    the clients are the [{'id': uuid}] objects that [add] creates. *)
Theorem save_then_load (users : dict) (self : XrayConfig.t)
    (clients : list json) (ss : json) (w : world) :
  wf (JObj users) ->
  Forall (fun kv => exists s, snd kv = JStr s) users ->
  wf (XrayConfig.config self) ->
  XrayConfig.clients_of (XrayConfig.config self) = Ret (JArr clients) ->
  XrayConfig.stream_settings_of (XrayConfig.config self) = Ret ss ->
  getitem_str ss "network" = Ret (XrayConfig.network self) ->
  (exists users' w1,
     UsersConfig.__init__ (snd (UsersConfig.save (JObj users) w))
     = (Ret (JObj users'), w1)
     /\ (forall k, dict_get k users' = dict_get k users)
     /\ json_equiv (JObj users) (JObj users'))
  /\ (exists self' clients' w2,
        XrayConfig.__init__ (snd (XrayConfig.save self w)) = (Ret self', w2)
        /\ XrayConfig.clients_of (XrayConfig.config self') = Ret (JArr clients')
        /\ Forall2 json_equiv clients clients'
        /\ (Forall (fun c => exists u, c = JObj [("id", JStr u)]) clients ->
            clients' = clients)
        /\ json_equiv (XrayConfig.config self) (XrayConfig.config self')
        /\ json_equiv (XrayConfig.network self) (XrayConfig.network self')).
Proof.
  intros Hwu Hnames Hwx Hc Hss Hnet. split.
  - rewrite users_save_run. cbn [snd].
    unfold UsersConfig.__init__, bind, read_text, lift.
    cbn [files persisted log put_file users_file].
    rewrite (loads_saved _ Hwu). cbn [norm].
    eexists. eexists. split; [reflexivity|]. split.
    + intros k. apply wf_obj in Hwu. destruct Hwu as [Hn _].
      rewrite JsonRoundTrip.dict_get_norm by assumption.
      now apply dict_get_names.
    + exact (json_equiv_norm true (JObj users) Hwu).
  - rewrite xray_save_run. cbn [snd].
    unfold XrayConfig.__init__, bind, read_text, lift.
    cbn [files persisted log put_file xray_file].
    rewrite (loads_saved _ Hwx).
    rewrite (clients_of_norm true _ _ Hwx Hc).
    destruct (stream_settings_of_norm true _ _ Hwx Hss) as [-> Hwss].
    rewrite JsonInvariants.getitem_str_norm by assumption. rewrite Hnet. cbn [omap].
    unfold ret. eexists. exists (map (norm true) clients). eexists.
    split; [reflexivity|]. cbn [XrayConfig.config XrayConfig.network].
    split; [exact (clients_of_norm true _ _ Hwx Hc)|].
    pose proof (JsonInvariants.wf_getitem_str _ _ _ Hwss Hnet) as Hwn.
    assert (Hwc : wf (JArr clients)).
    { apply clients_of_shape in Hc.
      destruct Hc as (top & others & first & settings & (E0 & E1 & E2) & E3).
      rewrite E0 in Hwx.
      pose proof (JsonInvariants.wf_getitem_str (JObj top) "inbounds" _ Hwx
                    ltac:(cbn [getitem_str]; rewrite E1; reflexivity)) as H1.
      pose proof (JsonInvariants.wf_getitem_int _ 0 _ H1 (getitem_int_first _ _)) as H2.
      pose proof (JsonInvariants.wf_getitem_str (JObj first) "settings" _ H2
                    ltac:(cbn [getitem_str]; rewrite E2; reflexivity)) as H3.
      exact (JsonInvariants.wf_getitem_str (JObj settings) "clients" _ H3
               ltac:(cbn [getitem_str]; rewrite E3; reflexivity)). }
    split; [|split; [|split]].
    + apply json_equiv_arr. exact (json_equiv_norm true (JArr clients) Hwc).
    + apply norm_id_clients.
    + now apply json_equiv_norm.
    + now apply json_equiv_norm.
Qed.

Lemma save_then_load_witness :
  exists users' w1,
    UsersConfig.__init__
      (snd (UsersConfig.save (JObj [("b", JStr "bob"); ("a", JStr "alice")]) Sample.empty))
    = (Ret (JObj users'), w1)
    /\ (forall k, dict_get k users'
                  = dict_get k [("b", JStr "bob"); ("a", JStr "alice")])
    /\ json_equiv (JObj [("b", JStr "bob"); ("a", JStr "alice")]) (JObj users').
Proof.
  refine (proj1 (save_then_load [("b", JStr "bob"); ("a", JStr "alice")]
                   one_client_config [JObj [("id", JStr "a")]]
                   (JObj [("network", JStr "ws")]) Sample.empty
                   _ _ _ eq_refl eq_refl eq_refl)).
  - wf_concrete.
  - repeat constructor; eexists; reflexivity.
  - wf_concrete.
Defined.

(** ** The users mapping *)

(** The users file holds the mapping [d]: [UsersConfig()] loads from it an
    object equal to [d] as a mapping, in which every key of [d] with a name
    has that name and no other key is present. *)
Definition holds_users (w : world) (d : dict) : Prop :=
  exists d2 w2,
    UsersConfig.__init__ w = (Ret (JObj d2), w2)
    /\ json_equiv (JObj d) (JObj d2)
    /\ (forall k name, dict_get k d = Some (JStr name) -> dict_get k d2 = Some (JStr name))
    /\ (forall k, dict_get k d = None -> dict_get k d2 = None).

Lemma saved_holds_users (d : dict) (w : world) :
  wf (JObj d) ->
  holds_users (persisted USERS_CONFIG_PATH (dumps (Some 4) true (JObj d)) w) d.
Proof.
  intros Hwf. unfold holds_users, UsersConfig.__init__, bind, read_text, lift.
  cbn [files persisted log put_file users_file].
  rewrite (loads_saved _ Hwf). cbn [norm].
  eexists. eexists. split; [reflexivity|].
  pose proof Hwf as Hwf'. apply wf_obj in Hwf'. destruct Hwf' as [Hn _].
  split; [exact (json_equiv_norm true (JObj d) Hwf)|]. split.
  - intros k name E. rewrite JsonRoundTrip.dict_get_norm by assumption. now rewrite E.
  - intros k E. rewrite JsonRoundTrip.dict_get_norm by assumption. now rewrite E.
Qed.

(** C6. On a users mapping [d]: [get] returns the stored username and raises
    [KeyError] when the UUID is absent; [set] inserts or overwrites the
    entry, leaves the other entries alone and persists the whole new
    mapping; [delete] raises [KeyError] and writes nothing when the UUID is
    absent, and otherwise removes the entry, leaves the others alone and
    persists the whole new mapping.  Persisted means that the users file
    then holds the new mapping: [UsersConfig()] loads it back. *)
Theorem users_config_accessors (d : dict) (uuid username : string) (w : world) :
  wf (JObj d) ->
  UsersConfig.__getitem__ (JObj d) (JStr uuid) w
  = (match dict_get uuid d with Some name => Ret name | None => Raise KeyError end, w)
  /\ (exists d' w',
        UsersConfig.__setitem__ (JObj d) uuid username w = (Ret (JObj d'), w')
        /\ dict_get uuid d' = Some (JStr username)
        /\ (forall k, k <> uuid -> dict_get k d' = dict_get k d)
        /\ wf (JObj d')
        /\ holds_users w' d')
  /\ (dict_get uuid d = None ->
      UsersConfig.__delitem__ (JObj d) (JStr uuid) w = (Raise KeyError, w))
  /\ (dict_get uuid d <> None ->
      exists d' w',
        UsersConfig.__delitem__ (JObj d) (JStr uuid) w = (Ret (JObj d'), w')
        /\ dict_get uuid d' = None
        /\ (forall k, k <> uuid -> dict_get k d' = dict_get k d)
        /\ wf (JObj d')
        /\ holds_users w' d').
Proof.
  intros Hwf. pose proof Hwf as Hwf'. apply wf_obj in Hwf'. destruct Hwf' as [Hn Hv].
  split; [|split; [|split]].
  - unfold UsersConfig.__getitem__, lift. cbn [getitem getitem_str].
    destruct (dict_get uuid d); reflexivity.
  - assert (Hw' : wf (JObj (dict_set uuid (JStr username) d))).
    { apply wf_obj. split; [now apply dict_set_nodup|].
      apply JsonInvariants.dict_set_values; [exact I | exact Hv]. }
    exists (dict_set uuid (JStr username) d). eexists.
    split; [reflexivity|].
    split; [apply dict_get_set_same|]. split; [|split].
    + intros k Hk. now apply dict_get_set_other.
    + exact Hw'.
    + exact (saved_holds_users _ w Hw').
  - intros E. unfold UsersConfig.__delitem__, bind, lift.
    cbn [delitem delitem_str]. now rewrite E.
  - intros E.
    assert (Hw' : wf (JObj (dict_del uuid d))).
    { apply wf_obj. split; [now apply dict_del_nodup|].
      clear - Hv. induction Hv as [|[k' v'] d Hkv Hd IH]; cbn [dict_del]; [constructor|].
      destruct (String.eqb uuid k'); [assumption | constructor; assumption]. }
    exists (dict_del uuid d). eexists.
    unfold UsersConfig.__delitem__, bind, lift. cbn [delitem delitem_str].
    destruct (dict_get uuid d); [|congruence].
    split; [reflexivity|]. split; [now apply dict_get_del_same|]. split; [|split].
    + intros k Hk. now apply dict_get_del_other.
    + exact Hw'.
    + exact (saved_holds_users _ w Hw').
Qed.

Lemma users_config_accessors_witness :
  wf (JObj [("a", JStr "alice")])
  /\ UsersConfig.__getitem__ (JObj [("a", JStr "alice")]) (JStr "b") Sample.empty
     = (Raise KeyError, Sample.empty)
  /\ exists d' w' d2 w2,
       UsersConfig.__setitem__ (JObj [("a", JStr "alice")]) "b" "bob" Sample.empty
       = (Ret (JObj d'), w')
       /\ UsersConfig.__init__ w' = (Ret (JObj d2), w2)
       /\ dict_get "a" d2 = Some (JStr "alice")
       /\ dict_get "b" d2 = Some (JStr "bob")
       /\ dict_get "c" d2 = None.
Proof.
  assert (H : wf (JObj [("a", JStr "alice")])).
  { simpl. split; [constructor; [simpl; tauto | constructor] | tauto]. }
  split; [exact H|].
  destruct (users_config_accessors [("a", JStr "alice")] "b" "bob" Sample.empty H)
    as (Hget & (d' & w' & Hset & Hb & Hother & _ & (d2 & w2 & Hload & _ & Hnames & Hnone))
        & _).
  split; [exact Hget|].
  exists d', w', d2, w2. split; [exact Hset|]. split; [exact Hload|].
  split; [|split].
  - apply Hnames. rewrite Hother by discriminate. reflexivity.
  - apply Hnames. exact Hb.
  - apply Hnone. rewrite Hother by discriminate. reflexivity.
Defined.

(** ** Connection strings *)











Ltac run := cbv beta match zeta.

Ltac run_with tac :=
  repeat (progress
            (run;
             cbn [files log put_file set_stdin caddy_file users_file xray_file stdin
                  negb XrayConfig.config XrayConfig.network];
             try tac)).






















Definition two_clients_xray : string :=
  Eval vm_compute in
    match files Sample.two_clients XRAY_CONFIG_PATH with
    | Some text => text
    | None => EmptyString
    end.










(** ** Defaults of [generate] *)

Lemma get_set_dest_same d v ns : Argparse.get_dest d (Argparse.set_dest d v ns) = v.
Proof.
  induction ns as [|[d' v'] ns IH]; cbn [Argparse.set_dest Argparse.get_dest].
  - now rewrite String.eqb_refl.
  - destruct (String.eqb d d') eqn:E; cbn [Argparse.get_dest]; rewrite E; [reflexivity | exact IH].
Qed.

Lemma get_set_dest_other d d' v ns :
  d' <> d -> Argparse.get_dest d' (Argparse.set_dest d v ns) = Argparse.get_dest d' ns.
Proof.
  intros Hne. induction ns as [|[d1 v1] ns IH]; cbn [Argparse.set_dest Argparse.get_dest].
  - destruct (String.eqb_spec d' d); [contradiction | reflexivity].
  - destruct (String.eqb_spec d d1) as [->|]; cbn [Argparse.get_dest].
    + destruct (String.eqb_spec d' d1); [contradiction | reflexivity].
    + destruct (String.eqb d' d1); [reflexivity | exact IH].
Qed.

Lemma mem_two x a b : Argparse.mem x [a; b] = true -> x = a \/ x = b.
Proof.
  unfold Argparse.mem. cbn [existsb]. rewrite !orb_true_iff, !String.eqb_eq.
  intuition discriminate.
Qed.

(** The flag a token selects among the options of [generate]. *)
Lemma find_generate_spec tok spec :
  Argparse.find_spec tok Argparse.generate_specs = Some spec ->
  ((tok = "-d" \/ tok = "--domain")
   /\ Argparse.dest spec = "domain" /\ Argparse.choices spec = None)
  \/ ((tok = "-t" \/ tok = "--transport")
      /\ Argparse.dest spec = "transport"
      /\ Argparse.choices spec = Some ["ws"; "xhttp"]).
Proof.
  unfold Argparse.generate_specs. cbn [Argparse.find_spec Argparse.flags].
  destruct (Argparse.mem tok ["-d"; "--domain"]) eqn:E1.
  - intros H. injection H as <-. left. split; [now apply mem_two | split; reflexivity].
  - destruct (Argparse.mem tok ["-t"; "--transport"]) eqn:E2; [|discriminate].
    intros H. injection H as <-. right. split; [now apply mem_two | split; reflexivity].
Qed.

Definition transport_choice (v : option string) : Prop :=
  v = Some "ws" \/ v = Some "xhttp".

Lemma parse_generate_optionals (n : nat) :
  forall argv ns ns',
    length argv <= n ->
    Argparse.parse_optionals Argparse.generate_specs argv ns = Ret ns' ->
    (~ In "-d" argv -> ~ In "--domain" argv ->
     Argparse.get_dest "domain" ns' = Argparse.get_dest "domain" ns)
    /\ (~ In "-t" argv -> ~ In "--transport" argv ->
        Argparse.get_dest "transport" ns' = Argparse.get_dest "transport" ns)
    /\ (transport_choice (Argparse.get_dest "transport" ns) ->
        transport_choice (Argparse.get_dest "transport" ns')).
Proof.
  induction n as [|n IH]; intros argv ns ns' Hlen.
  - destruct argv; [|cbn in Hlen; lia]. intros H. injection H as <-. auto.
  - destruct argv as [|tok rest]; [intros H; injection H as <-; auto|].
    cbn [Argparse.parse_optionals].
    destruct (Argparse.find_spec tok Argparse.generate_specs) as [spec|] eqn:Es.
    2:{ destruct (Argparse.looks_like_option tok); discriminate. }
    destruct rest as [|v rest']; [discriminate|].
    destruct (Argparse.looks_like_option v); [discriminate|].
    destruct (Argparse.allowed spec v) eqn:Ea; [|discriminate].
    intros H. cbn [length] in Hlen.
    destruct (IH rest' _ _ ltac:(lia) H) as (Hd & Ht & Hc).
    destruct (find_generate_spec _ _ Es) as [(Htok & Hdest & _)|(Htok & Hdest & Hch)];
      rewrite Hdest in *.
    + repeat split.
      * intros N1 N2. exfalso. destruct Htok as [-> | ->]; [apply N1 | apply N2]; now left.
      * intros N1 N2. rewrite Ht by (intros X; first [apply N1; right; right; exact X | apply N2; right; right; exact X]).
        apply get_set_dest_other. discriminate.
      * intros C. apply Hc. rewrite get_set_dest_other by discriminate. exact C.
    + repeat split.
      * intros N1 N2. rewrite Hd by (intros X; first [apply N1; right; right; exact X | apply N2; right; right; exact X]).
        apply get_set_dest_other. discriminate.
      * intros N1 N2. exfalso. destruct Htok as [-> | ->]; [apply N1 | apply N2]; now left.
      * intros _. apply Hc. rewrite get_set_dest_same.
        unfold Argparse.allowed in Ea. rewrite Hch in Ea.
        apply mem_two in Ea. destruct Ea as [-> | ->]; [left | right]; reflexivity.
Qed.

(** C10. [generate] without arguments has domain [localhost] and transport
    [xhttp]; more generally the domain is [localhost] whenever no [-d] or
    [--domain] is given and the transport is [xhttp] whenever no [-t] or
    [--transport] is given; and a transport that is accepted is [ws] or
    [xhttp]: [--transport v] is accepted for these two values and ends the
    program for every other value that does not start with a dash. *)
Theorem generate_defaults :
  Argparse.parse_args ["generate"] = Ret (Argparse.GenerateArgs "localhost" "xhttp")
  /\ (forall argv domain transport,
        Argparse.parse_args ("generate" :: argv)
        = Ret (Argparse.GenerateArgs domain transport) ->
        (~ In "-d" argv -> ~ In "--domain" argv -> domain = "localhost")
        /\ (~ In "-t" argv -> ~ In "--transport" argv -> transport = "xhttp")
        /\ (transport = "ws" \/ transport = "xhttp"))
  /\ (forall flag v,
        flag = "-t" \/ flag = "--transport" ->
        Argparse.looks_like_option v = false ->
        Argparse.parse_args ["generate"; flag; v]
        = if (String.eqb v "ws" || String.eqb v "xhttp")%bool
          then Ret (Argparse.GenerateArgs "localhost" v)
          else Raise SystemExit).
Proof.
  split; [reflexivity|]. split.
  - intros argv domain transport.
    change (Argparse.parse_args ("generate" :: argv)) with (Argparse.parse_generate argv).
    unfold Argparse.parse_generate, obind.
    destruct (Argparse.parse_optionals _ argv _) as [ns| |] eqn:E; [|discriminate..].
    destruct (parse_generate_optionals (length argv) argv _ ns (le_n _) E) as (Hd & Ht & Hc).
    destruct (Argparse.get_dest "domain" ns) as [d|] eqn:E1; [|discriminate].
    destruct (Argparse.get_dest "transport" ns) as [t|] eqn:E2; [|discriminate].
    intros H. injection H as <- <-. repeat split.
    + intros N1 N2. specialize (Hd N1 N2). cbn in Hd. congruence.
    + intros N1 N2. specialize (Ht N1 N2). cbn in Ht. congruence.
    + destruct (Hc (or_intror eq_refl)) as [X|X]; injection X as ->; [left | right]; reflexivity.
  - intros flag v Hflag Hv.
    change (Argparse.parse_args ["generate"; flag; v])
      with (Argparse.parse_generate [flag; v]).
    unfold Argparse.parse_generate, obind. cbn [Argparse.parse_optionals].
    assert (Es : Argparse.find_spec flag Argparse.generate_specs
                 = Some {| Argparse.flags := ["-t"; "--transport"];
                           Argparse.dest := "transport";
                           Argparse.default := Some "xhttp";
                           Argparse.choices := Some ["ws"; "xhttp"] |}).
    { destruct Hflag as [-> | ->]; reflexivity. }
    rewrite Es, Hv. unfold Argparse.allowed, Argparse.mem.
    cbn [Argparse.choices existsb Argparse.dest]. rewrite orb_false_r.
    destruct (String.eqb v "ws" || String.eqb v "xhttp")%bool; reflexivity.
Qed.

Lemma generate_defaults_witness :
  Argparse.parse_args ["generate"; "-t"; "ws"] = Ret (Argparse.GenerateArgs "localhost" "ws")
  /\ "localhost" = "localhost".
Proof.
  split; [reflexivity|].
  refine (proj1 (proj1 (proj2 generate_defaults) ["-t"; "ws"] "localhost" "ws" eq_refl) _ _);
    simpl; intros [H|[H|[]]]; discriminate.
Defined.

(** ** Templates *)


























(** * Further properties of the commands *)

(** ** [connstr]: the files it needs and the domain it reads *)

(** Without the Caddy config or without the Xray config, [connstr] prints
    the message about missing files on standard error and returns, with or
    without [--uuid]: it reads no file, prints nothing on standard output
    and asks for no input.  The users config is not among the files it
    checks. *)
Theorem connstr_requires_configs (uuid_arg : option string) (w : world) :
  files w CADDY_CONFIG_PATH = None \/ files w XRAY_CONFIG_PATH = None ->
  connstr uuid_arg w = (Ret tt, log (EvStderr missing_configs) w).
Proof.
  cbn [files]. intros H. unfold connstr, bind, path_exists. cbn [files].
  destruct (caddy_file w); [|reflexivity].
  destruct (xray_file w); [|reflexivity].
  destruct H as [H|H]; discriminate.
Qed.

Lemma connstr_requires_configs_witness :
  files Sample.empty XRAY_CONFIG_PATH = None /\
  connstr None Sample.empty = (Ret tt, log (EvStderr missing_configs) Sample.empty).
Proof.
  split; [reflexivity|].
  apply (connstr_requires_configs None Sample.empty). right. reflexivity.
Defined.

Lemma block_follows_prefix s : block_follows s = true -> prefix " {" s = true.
Proof.
  destruct s as [|a [|b r]]; try discriminate. cbn [block_follows prefix].
  intros H. apply andb_true_iff in H as [H _]. apply andb_true_iff in H as [Ha Hb].
  apply Ascii.eqb_eq in Ha, Hb. subst. destruct r; reflexivity.
Qed.

Lemma block_follows_close s : block_follows s = true -> has_close s = true.
Proof.
  destruct s as [|a [|b r]]; try discriminate. cbn [block_follows has_close].
  intros H. apply andb_true_iff in H as [_ H]. rewrite H. now rewrite !orb_true_r.
Qed.

(** No line of a text without [ {], or without a closing brace, matches. *)
Lemma search_from_none s :
  Text.contains " {" s = false \/ has_close s = false ->
  longest_run s = None /\ forall b, search_from s b = None.
Proof.
  induction s as [|c s IH]; intros H.
  - split; [reflexivity|]. intros [|]; reflexivity.
  - assert (Hs : Text.contains " {" s = false \/ has_close s = false).
    { destruct H as [H|H]; [left | right].
      - cbn [Text.contains] in H. now apply orb_false_iff in H as [_ H].
      - cbn [has_close] in H. now apply orb_false_iff in H as [_ H]. }
    assert (Hb : block_follows (String c s) = false).
    { destruct (block_follows (String c s)) eqn:E; [|reflexivity]. exfalso.
      destruct H as [H|H].
      - cbn [Text.contains] in H. apply orb_false_iff in H as [H _].
        rewrite (block_follows_prefix _ E) in H. discriminate.
      - rewrite (block_follows_close _ E) in H. discriminate. }
    destruct (IH Hs) as [Hl Hf].
    assert (Hrun : longest_run (String c s) = None).
    { cbn [longest_run]. rewrite Hl, Hb. cbn [option_map]. now destruct (Ascii.eqb c newline). }
    split; [exact Hrun|].
    intros b. cbn [search_from]. rewrite Hf.
    destruct b; [|reflexivity]. unfold match_here. rewrite Hl. cbn [option_map].
    now destruct (Ascii.eqb c newline).
Qed.

(** When the Caddy config holds no site block at all (nowhere a space
    followed by an opening brace, or no closing brace), [re.search] finds
    nothing and [res.group] fails: [connstr] ends in an [AttributeError]
    that nothing catches, right after reading the Caddy config and before
    it looks at the Xray config. *)
Theorem connstr_without_site_block (uuid_arg : option string) (w : world)
    (caddy xtext : string) :
  files w CADDY_CONFIG_PATH = Some caddy ->
  files w XRAY_CONFIG_PATH = Some xtext ->
  Text.contains " {" caddy = false \/ has_close caddy = false ->
  connstr uuid_arg w = (Raise AttributeError, log (EvRead CADDY_CONFIG_PATH) w).
Proof.
  cbn [files]. intros Hc Hx H.
  assert (Hs : search_domain caddy = None) by exact (proj2 (search_from_none caddy H) true).
  unfold connstr, bind, path_exists, read_text, raise, lift, ret.
  run_with ltac:(rewrite ?Hc, ?Hx, ?Hs). reflexivity.
Qed.

Lemma connstr_without_site_block_witness :
  connstr None (put_file CADDY_CONFIG_PATH "example.com" Sample.two_clients)
  = (Raise AttributeError,
     log (EvRead CADDY_CONFIG_PATH)
       (put_file CADDY_CONFIG_PATH "example.com" Sample.two_clients)).
Proof.
  apply (connstr_without_site_block None
           (put_file CADDY_CONFIG_PATH "example.com" Sample.two_clients)
           "example.com" two_clients_xray).
  - reflexivity.
  - vm_compute. reflexivity.
  - left. reflexivity.
Defined.







(** ** The [client] command on an installation *)


(** What [XrayConfig()] finds: an Xray config with a client list and a
    network. *)
Definition xray_loaded (w : world) (config : json) (clients : list json)
    (network : json) : Prop :=
  exists xtext ss,
    files w XRAY_CONFIG_PATH = Some xtext
    /\ loads xtext = Ret config
    /\ XrayConfig.clients_of config = Ret (JArr clients)
    /\ XrayConfig.stream_settings_of config = Ret ss
    /\ getitem_str ss "network" = Ret network.



















(** *** Documents that stay well formed, and what is loaded after [save] *)

Lemma wf_dict_set k v (d : dict) : wf (JObj d) -> wf v -> wf (JObj (dict_set k v d)).
Proof.
  intros H Hv. apply wf_obj in H. destruct H as [Hn Hvs]. apply wf_obj. split.
  - now apply dict_set_nodup.
  - now apply JsonInvariants.dict_set_values.
Qed.


Lemma wf_dict_get k v (d : dict) : wf (JObj d) -> dict_get k d = Some v -> wf v.
Proof.
  intros H E. apply (JsonInvariants.wf_getitem_str (JObj d) k); [exact H|].
  cbn [getitem_str]. now rewrite E.
Qed.

Lemma wf_clients_of config clients :
  wf config -> XrayConfig.clients_of config = Ret clients -> wf clients.
Proof.
  intros Hwf Hc. apply clients_of_shape in Hc.
  destruct Hc as (top & others & first & settings & (-> & E1 & E2) & E3).
  pose proof (wf_dict_get _ _ _ Hwf E1) as H1. apply wf_arr in H1.
  inversion H1 as [|? ? Hfirst _]; subst.
  exact (wf_dict_get _ _ _ (wf_dict_get _ _ _ Hfirst E2) E3).
Qed.

Lemma wf_with_clients config old clients config' :
  wf config -> wf clients ->
  XrayConfig.clients_of config = Ret old ->
  XrayConfig.with_clients config clients = Ret config' ->
  wf config'.
Proof.
  intros Hwf Hc Hold Hw. apply clients_of_shape in Hold.
  destruct Hold as (top & others & first & settings & Hs & E3).
  rewrite (with_clients_shaped _ _ _ _ _ clients Hs) in Hw. injection Hw as <-.
  destruct Hs as (-> & E1 & E2).
  pose proof (wf_dict_get _ _ _ Hwf E1) as H1. apply wf_arr in H1.
  inversion H1 as [|? ? Hfirst Hothers]; subst.
  pose proof (wf_dict_get _ _ _ Hfirst E2) as Hset.
  unfold reshaped. apply wf_dict_set; [exact Hwf|]. apply wf_arr.
  constructor; [|exact Hothers].
  apply wf_dict_set; [exact Hfirst|]. now apply wf_dict_set.
Qed.



Lemma xray_loaded_saved (w : world) (config : json) (clients : list json)
    (ss network : json) :
  wf config ->
  XrayConfig.clients_of config = Ret (JArr clients) ->
  XrayConfig.stream_settings_of config = Ret ss ->
  getitem_str ss "network" = Ret network ->
  files w XRAY_CONFIG_PATH = Some (dumps (Some 4) true config ++ nl) ->
  xray_loaded w (norm true config) (map (norm true) clients) (norm true network).
Proof.
  intros Hwf Hc Hss Hn Hf. eexists. exists (norm true ss).
  split; [exact Hf|]. split; [exact (loads_saved _ Hwf)|].
  split; [exact (clients_of_norm true _ _ Hwf Hc)|].
  destruct (stream_settings_of_norm true _ _ Hwf Hss) as [Hss' Hwss].
  split; [exact Hss'|].
  rewrite JsonInvariants.getitem_str_norm by exact Hwss. now rewrite Hn.
Qed.







(** *** [client add] *)



Lemma uuid4_log e w : fst (uuid4 (log e w)) = fst (uuid4 w).
Proof. reflexivity. Qed.
















(** *** [client remove] *)




Lemma get_at config network clients (n : Z) k c u w :
  XrayConfig.clients_of config = Ret (JArr clients) ->
  norm_index (length clients) (n - 1) = Some k ->
  nth_error clients k = Some c ->
  client_id c u ->
  XrayConfig.get {| XrayConfig.config := config; XrayConfig.network := network |} n w
  = (Ret (JStr u), w).
Proof.
  intros Hc Hk Hnth Hu. unfold XrayConfig.get, bind, try_except, lift.
  cbn [XrayConfig.config]. rewrite Hc. cbn [getitem_int].
  rewrite Hk, Hnth. unfold ret. run.
  exact (f_equal (fun o => (o, w)) Hu).
Qed.

Lemma remove_at config network clients (n : Z) k c u w :
  XrayConfig.clients_of config = Ret (JArr clients) ->
  norm_index (length clients) (n - 1) = Some k ->
  nth_error clients k = Some c ->
  client_id c u ->
  exists config',
    XrayConfig.with_clients config (JArr (remove_nth k clients)) = Ret config'
    /\ XrayConfig.remove {| XrayConfig.config := config; XrayConfig.network := network |} n w
       = (Ret (JStr u, {| XrayConfig.config := config'; XrayConfig.network := network |}),
          persisted XRAY_CONFIG_PATH (dumps (Some 4) true config') w).
Proof.
  intros Hc Hk Hnth Hu.
  destruct (clients_of_with_clients config (JArr clients) (JArr (remove_nth k clients)) Hc)
    as (config' & Hw & _).
  exists config'. split; [exact Hw|].
  unfold XrayConfig.remove, bind, try_except, lift. cbn [XrayConfig.config].
  rewrite Hc. cbn [getitem_int delitem_int]. rewrite Hk, Hnth.
  unfold client_id in Hu. rewrite Hu. unfold ret. run.
  rewrite Hw. cbn [XrayConfig.network]. rewrite xray_save_run. reflexivity.
Qed.

Lemma int_of_str_cases text :
  (exists z, int_of_str text = Ret z) \/ int_of_str text = Raise ValueError.
Proof.
  unfold int_of_str.
  destruct (match strip text with
            | EmptyString => None
            | String c r =>
                if Ascii.eqb c "-" then option_map Z.opp (digits_value r 0 false)
                else if Ascii.eqb c "+" then digits_value r 0 false
                else digits_value (String c r) 0 false
            end) as [z|]; [left; now exists z | right; reflexivity].
Qed.














Lemma remove_nth_length {A} (l : list A) k :
  k < length l -> length (remove_nth k l) + 1 = length l.
Proof.
  revert k. induction l as [|x l IH]; intros k Hk; [cbn in Hk; lia|].
  destruct k as [|k]; cbn [remove_nth length] in *; [lia|].
  rewrite <- (IH k) by lia. lia.
Qed.

Lemma Forall_remove_nth {A} (P : A -> Prop) (l : list A) k :
  Forall P l -> Forall P (remove_nth k l).
Proof.
  intros H. revert k. induction H as [|x l Hx Hl IH]; intros k; [destruct k; constructor|].
  destruct k as [|k]; cbn [remove_nth]; [exact Hl | constructor; [exact Hx | apply IH]].
Qed.

(** The Xray config after an update of the client list, as the next command
    loads it. *)
Lemma updated_xray_loaded w1 config old clients ss network config' :
  wf config ->
  XrayConfig.clients_of config = Ret (JArr old) ->
  Forall wf clients ->
  XrayConfig.stream_settings_of config = Ret ss ->
  getitem_str ss "network" = Ret network ->
  XrayConfig.with_clients config (JArr clients) = Ret config' ->
  files w1 XRAY_CONFIG_PATH = Some (dumps (Some 4) true config' ++ nl) ->
  xray_loaded w1 (norm true config') (map (norm true) clients) (norm true network).
Proof.
  intros Hwf Hcl Hwc Hss Hn Hw Hf.
  destruct (clients_of_with_clients config (JArr old) (JArr clients) Hcl)
    as (c2 & Hw2 & Hc2 & Hss2 & _).
  assert (c2 = config') by congruence. subst c2.
  apply wf_arr in Hwc.
  pose proof (wf_with_clients _ _ _ _ Hwf Hwc Hcl Hw) as Hwf'.
  rewrite Hss in Hss2.
  exact (xray_loaded_saved w1 config' _ ss network Hwf' Hc2 Hss2 Hn Hf).
Qed.









(** ** [connstr]: answers it declines, and other networks *)

















(** ** Sequence numbers within the list *)

(** The index [number - 1] as Python resolves it on a list of [count]
    items: from the start for a positive number, from the end otherwise. *)
Definition position (count : nat) (n : Z) : nat :=
  Z.to_nat (if (1 <=? n)%Z then n - 1 else Z.of_nat count + n - 1).

Lemma norm_index_position (count : nat) (n : Z) :
  (- Z.of_nat count < n <= Z.of_nat count)%Z ->
  norm_index count (n - 1) = Some (position count n).
Proof.
  intros H. unfold norm_index, position.
  destruct (Z.leb_spec 1 n).
  - destruct (Z.leb_spec 0 (n - 1)); [|lia].
    destruct (Z.ltb_spec (n - 1) (Z.of_nat count)); [reflexivity | lia].
  - destruct (Z.leb_spec 0 (n - 1)); [lia|].
    destruct (Z.leb_spec 0 (Z.of_nat count + (n - 1))); [|lia].
    do 2 f_equal. lia.
Qed.

Lemma remove_nth_nth {A} (l : list A) :
  forall k i, nth_error (remove_nth k l) i = nth_error l (if Nat.ltb i k then i else S i).
Proof.
  induction l as [|x l IH]; intros k i.
  - destruct (Nat.ltb i k); destruct k, i; reflexivity.
  - destruct k as [|k]; cbn [remove_nth].
    + reflexivity.
    + destruct i as [|i]; [reflexivity|]. cbn [nth_error]. rewrite IH.
      change (Nat.ltb (S i) (S k)) with (Nat.ltb i k). now destruct (Nat.ltb i k).
Qed.

(** Sequence numbers within the list, for [get] and [remove].  A number
    from 1 to the count selects the client at that place; a number from
    minus the count (excluded) to 0 selects from the end, 0 being the last
    client, because the index [number - 1] is then negative.  [get] returns
    the UUID of the selected client and changes nothing; [remove] returns
    it, takes that one client out of the list, the clients before it and
    after it staying in their order, leaves the stream settings alone and
    saves the config: when the config is one that [XrayConfig()] can load,
    the saved file loads again, with the remaining clients in their
    order. *)
Theorem get_remove_in_range (config network : json) (clients : list json)
    (n : Z) (c : json) (u : string) (w : world) :
  XrayConfig.clients_of config = Ret (JArr clients) ->
  (- Z.of_nat (length clients) < n <= Z.of_nat (length clients))%Z ->
  nth_error clients (position (length clients) n) = Some c ->
  client_id c u ->
  let self := {| XrayConfig.config := config; XrayConfig.network := network |} in
  let k := position (length clients) n in
  XrayConfig.get self n w = (Ret (JStr u), w)
  /\ exists config',
       XrayConfig.remove self n w
       = (Ret (JStr u, {| XrayConfig.config := config'; XrayConfig.network := network |}),
          persisted XRAY_CONFIG_PATH (dumps (Some 4) true config') w)
       /\ XrayConfig.clients_of config' = Ret (JArr (remove_nth k clients))
       /\ XrayConfig.stream_settings_of config' = XrayConfig.stream_settings_of config
       /\ length (remove_nth k clients) + 1 = length clients
       /\ (forall i, nth_error (remove_nth k clients) i
                     = nth_error clients (if Nat.ltb i k then i else S i))
       /\ (forall ss,
             wf config ->
             XrayConfig.stream_settings_of config = Ret ss ->
             getitem_str ss "network" = Ret network ->
             exists config1 clients1 network1,
               xray_loaded (persisted XRAY_CONFIG_PATH (dumps (Some 4) true config') w)
                 config1 clients1 network1
               /\ Forall2 json_equiv (remove_nth k clients) clients1
               /\ json_equiv network network1).
Proof.
  intros Hc Hn Hnth Hu self k. subst self k.
  pose proof (norm_index_position _ _ Hn) as Hk. split.
  - exact (get_at config network clients n _ c u w Hc Hk Hnth Hu).
  - destruct (remove_at config network clients n _ c u w Hc Hk Hnth Hu)
      as (config' & Hw & Hrem).
    destruct (clients_of_with_clients config (JArr clients)
                (JArr (remove_nth (position (length clients) n) clients)) Hc)
      as (c2 & Hw2 & Hc2 & Hss2 & _).
    assert (c2 = config') by congruence. subst c2.
    exists config'. split; [exact Hrem|]. split; [exact Hc2|]. split; [exact Hss2|].
    split; [|split; [apply remove_nth_nth|]].
    { apply remove_nth_length. apply nth_error_Some. congruence. }
    intros ss Hwf Hss Hnet.
    pose proof (wf_clients_of _ _ Hwf Hc) as Hwc. apply wf_arr in Hwc.
    pose proof (Forall_remove_nth wf clients (position (length clients) n) Hwc) as Hwr.
    exists (norm true config'),
      (map (norm true) (remove_nth (position (length clients) n) clients)),
      (norm true network).
    split; [|split].
    + apply (updated_xray_loaded _ config clients _ ss network config');
        try assumption. reflexivity.
    + apply json_equiv_arr. apply wf_arr in Hwr.
      exact (json_equiv_norm true (JArr _) Hwr).
    + apply json_equiv_norm.
      destruct (stream_settings_of_norm true _ _ Hwf Hss) as [_ Hwss].
      exact (JsonInvariants.wf_getitem_str _ _ _ Hwss Hnet).
Qed.

Lemma get_remove_in_range_witness :
  XrayConfig.get one_client_config 0 Sample.empty = (Ret (JStr "a"), Sample.empty).
Proof.
  refine (proj1 (get_remove_in_range (XrayConfig.config one_client_config) (JStr "ws")
                   [JObj [("id", JStr "a")]] 0 (JObj [("id", JStr "a")]) "a"
                   Sample.empty eq_refl _ eq_refl eq_refl)).
  cbn. lia.
Defined.

(** ** The numbers [list] prints are the numbers the prompts accept *)

















(** ** [generate] when a template is missing or names an unknown field *)













(** ** From the command line to the commands *)



(** ** What [save] writes is in canonical form *)

(** Items in non-decreasing key order. *)
Fixpoint sorted_keys {A} (l : list (string * A)) : Prop :=
  match l with
  | [] => True
  | kv :: r =>
      match r with
      | [] => True
      | kv' :: _ => String.leb (fst kv) (fst kv') = true
      end /\ sorted_keys r
  end.

Lemma insert_item_sorted {A} (kv : string * A) (l : list (string * A)) :
  sorted_keys l -> sorted_keys (insert_item kv l).
Proof.
  induction l as [|kv' l IH]; intros Hs; [cbn; auto|].
  cbn [insert_item]. destruct (String.leb (fst kv) (fst kv')) eqn:E.
  - cbn [sorted_keys]. split; [exact E | exact Hs].
  - destruct Hs as [Hh Hs]. specialize (IH Hs).
    change (sorted_keys (kv' :: insert_item kv l)). cbn [sorted_keys].
    split; [|exact IH].
    destruct l as [|kv'' l]; cbn [insert_item].
    + destruct (String.leb_total (fst kv) (fst kv')); congruence.
    + destruct (String.leb (fst kv) (fst kv'')); [|exact Hh].
      destruct (String.leb_total (fst kv) (fst kv')); congruence.
Qed.

Lemma sort_items_sorted {A} (l : list (string * A)) : sorted_keys (sort_items l).
Proof.
  induction l as [|kv l IH]; [exact I|]. cbn [sort_items]. now apply insert_item_sorted.
Qed.

Lemma sort_items_id {A} (l : list (string * A)) : sorted_keys l -> sort_items l = l.
Proof.
  induction l as [|kv l IH]; intros Hs; [reflexivity|].
  destruct Hs as [Hh Hs]. cbn [sort_items]. rewrite (IH Hs).
  destruct l as [|kv' l]; [reflexivity|]. cbn [insert_item]. now rewrite Hh.
Qed.

Lemma sort_items_idem {A} (l : list (string * A)) :
  sort_items (sort_items l) = sort_items l.
Proof. apply sort_items_id, sort_items_sorted. Qed.

Lemma encode_arr_items indent sort_keys level (l : list json) :
  l <> [] ->
  encode indent sort_keys level (JArr l)
  = "[" ++ newline_indent indent (S level)
    ++ Text.join (separator indent (S level)) (map (encode indent sort_keys (S level)) l)
    ++ newline_indent indent level ++ "]".
Proof. destruct l; [congruence | reflexivity]. Qed.

Lemma encode_obj_items indent sort_keys level (d : dict) :
  d <> [] ->
  encode indent sort_keys level (JObj d)
  = "{" ++ newline_indent indent (S level)
    ++ Text.join (separator indent (S level))
         (map member
            (order sort_keys
               (map (fun kv => (fst kv, encode indent sort_keys (S level) (snd kv))) d)))
    ++ newline_indent indent level ++ "}".
Proof. destruct d; [congruence | reflexivity]. Qed.

(** Sorting the keys of a document does not change what [dumps] with
    [sort_keys=True] writes for it. *)
Lemma encode_norm indent (v : json) :
  forall level, encode indent true level (norm true v) = encode indent true level v.
Proof.
  induction v as [|b|z|s|l IHl|d IHd] using json_ind; intros level; try reflexivity.
  - destruct l as [|x l]; [reflexivity|].
    change (norm true (JArr (x :: l))) with (JArr (map (norm true) (x :: l))).
    rewrite !encode_arr_items by discriminate. rewrite map_map.
    do 4 f_equal. apply map_ext_in. intros y Hy.
    rewrite Forall_forall in IHl. exact (IHl y Hy (S level)).
  - destruct d as [|kv d]; [reflexivity|].
    set (d0 := kv :: d) in *.
    change (norm true (JObj d0))
      with (JObj (sort_items (map (fun kv => (fst kv, norm true (snd kv))) d0))).
    assert (Hne : sort_items (map (fun kv => (fst kv, norm true (snd kv))) d0) <> []).
    { intros E. apply (f_equal (@length _)) in E.
      rewrite (Permutation_length (sort_items_perm _)), length_map in E. discriminate. }
    rewrite (encode_obj_items indent true level _ Hne).
    rewrite (encode_obj_items indent true level d0) by discriminate.
    do 5 f_equal. cbn [order].
    rewrite (sort_items_map (encode indent true (S level))).
    rewrite sort_items_idem.
    rewrite (sort_items_map (norm true)), map_map. cbn [fst snd].
    rewrite (sort_items_map (encode indent true (S level))).
    apply map_ext_in. intros [k x] Hin. cbn [fst snd]. f_equal.
    rewrite Forall_forall in IHd.
    apply (IHd (k, x)).
    exact (Permutation_in _ (sort_items_perm d0) Hin).
Qed.

(** What [save] writes is in canonical form: loading the file and saving
    the loaded object again, unchanged, writes the very same text, for the
    users config as for the Xray config.  (A file written by hand, or the
    Xray config as [generate] renders it from the template, is in general
    rewritten in another layout by the first [save].) *)
Theorem save_is_canonical (users : dict) (self : XrayConfig.t)
    (clients : list json) (ss : json) (w : world) :
  wf (JObj users) ->
  wf (XrayConfig.config self) ->
  XrayConfig.clients_of (XrayConfig.config self) = Ret (JArr clients) ->
  XrayConfig.stream_settings_of (XrayConfig.config self) = Ret ss ->
  getitem_str ss "network" = Ret (XrayConfig.network self) ->
  (exists users' w1 text,
     UsersConfig.__init__ (snd (UsersConfig.save (JObj users) w)) = (Ret users', w1)
     /\ files w1 USERS_CONFIG_PATH = Some text
     /\ files (snd (UsersConfig.save users' w1)) USERS_CONFIG_PATH = Some text)
  /\ (exists self' w2 text,
        XrayConfig.__init__ (snd (XrayConfig.save self w)) = (Ret self', w2)
        /\ files w2 XRAY_CONFIG_PATH = Some text
        /\ files (snd (XrayConfig.save self' w2)) XRAY_CONFIG_PATH = Some text).
Proof.
  intros Hwu Hwx Hc Hss Hnet. split.
  - rewrite users_save_run. cbn [snd].
    unfold UsersConfig.__init__, bind, read_text, lift.
    cbn [files persisted log put_file users_file].
    rewrite (loads_saved _ Hwu).
    eexists. eexists. eexists. split; [reflexivity|]. split; [reflexivity|].
    rewrite users_save_run. cbn [snd files persisted log put_file users_file].
    unfold dumps. now rewrite encode_norm.
  - rewrite xray_save_run. cbn [snd].
    unfold XrayConfig.__init__, bind, read_text, lift.
    cbn [files persisted log put_file xray_file].
    rewrite (loads_saved _ Hwx).
    rewrite (clients_of_norm true _ _ Hwx Hc).
    destruct (stream_settings_of_norm true _ _ Hwx Hss) as [-> Hwss].
    rewrite JsonInvariants.getitem_str_norm by assumption. rewrite Hnet. cbn [omap].
    unfold ret. eexists. eexists. eexists. split; [reflexivity|]. split; [reflexivity|].
    rewrite xray_save_run. cbn [snd files persisted log put_file xray_file XrayConfig.config].
    unfold dumps. now rewrite encode_norm.
Qed.

Lemma save_is_canonical_witness :
  exists users' w1 text,
    UsersConfig.__init__
      (snd (UsersConfig.save (JObj [("b", JStr "bob"); ("a", JStr "alice")]) Sample.empty))
    = (Ret users', w1)
    /\ files w1 USERS_CONFIG_PATH = Some text
    /\ files (snd (UsersConfig.save users' w1)) USERS_CONFIG_PATH = Some text.
Proof.
  refine (proj1 (save_is_canonical [("b", JStr "bob"); ("a", JStr "alice")]
                   one_client_config [JObj [("id", JStr "a")]]
                   (JObj [("network", JStr "ws")]) Sample.empty
                   _ _ eq_refl eq_refl eq_refl)).
  - wf_concrete.
  - wf_concrete.
Defined.

(** ** What the commands never touch *)

(** The computation leaves the file [p] as it is, however it ends. *)
Definition keeps {A} (p : path) (m : M A) : Prop :=
  forall w, files (snd (m w)) p = files w p.

Lemma keeps_ret {A} p (a : A) : keeps p (ret a).
Proof. intros w. reflexivity. Qed.

Lemma keeps_lift {A} p (o : outcome A) : keeps p (lift o).
Proof. intros w. reflexivity. Qed.

Lemma keeps_raise {A} p e : keeps p (@raise A e).
Proof. intros w. reflexivity. Qed.

Lemma keeps_bind {A B} p (m : M A) (k : A -> M B) :
  keeps p m -> (forall a, keeps p (k a)) -> keeps p (bind m k).
Proof.
  intros Hm Hk w. unfold bind. specialize (Hm w).
  destruct (m w) as [[a|e|] w1]; cbn [snd] in *; [|exact Hm..].
  rewrite <- Hm. apply Hk.
Qed.

Lemma keeps_try {A} p (body handler : M A) e :
  keeps p body -> keeps p handler -> keeps p (try_except body e handler).
Proof.
  intros Hb Hh w. unfold try_except. specialize (Hb w).
  destruct (body w) as [[a|e'|] w1]; cbn [snd] in *; try exact Hb.
  destruct (exn_eqb e e'); [|exact Hb]. rewrite <- Hb. apply Hh.
Qed.

Lemma keeps_log e p w : files (log e w) p = files w p.
Proof. destruct p; reflexivity. Qed.

Lemma keeps_path_exists p q : keeps p (path_exists q).
Proof. intros w. reflexivity. Qed.

Lemma keeps_read_text p q : keeps p (read_text q).
Proof.
  intros w. unfold read_text. destruct (files w q); [apply keeps_log | reflexivity].
Qed.

Lemma keeps_print p line : keeps p (print line).
Proof. intros w. apply keeps_log. Qed.

Lemma keeps_eprint p line : keeps p (eprint line).
Proof. intros w. apply keeps_log. Qed.

Lemma keeps_input p prompt : keeps p (input prompt).
Proof.
  intros w. unfold input. destruct (stdin w); cbn [snd]; destruct p; reflexivity.
Qed.

Lemma keeps_makedirs p q : keeps p (makedirs q).
Proof. intros w. apply keeps_log. Qed.

Lemma keeps_token_bytes p n : keeps p (token_bytes n).
Proof. intros w. destruct p; reflexivity. Qed.

(** Writing to one of the three configs leaves the other files alone. *)
Definition other_file (p q : path) : Prop :=
  match p, q with
  | CADDY_CONFIG_PATH, CADDY_CONFIG_PATH
  | USERS_CONFIG_PATH, USERS_CONFIG_PATH
  | XRAY_CONFIG_PATH, XRAY_CONFIG_PATH => False
  | _, TEMPLATE _ _ => False
  | _, _ => True
  end.

Lemma keeps_open_w p q : other_file p q -> keeps p (open_w q).
Proof. intros H w. destruct p, q; try contradiction; reflexivity. Qed.

Lemma keeps_write p q text : other_file p q -> keeps p (write q text).
Proof. intros H w. destruct p, q; try contradiction; reflexivity. Qed.

Ltac keeps_step :=
  match goal with
  | |- keeps _ (ret _) => apply keeps_ret
  | |- keeps _ (lift _) => apply keeps_lift
  | |- keeps _ (raise _) => apply keeps_raise
  | |- keeps _ (path_exists _) => apply keeps_path_exists
  | |- keeps _ (read_text _) => apply keeps_read_text
  | |- keeps _ (print _) => apply keeps_print
  | |- keeps _ (eprint _) => apply keeps_eprint
  | |- keeps _ (input _) => apply keeps_input
  | |- keeps _ (makedirs _) => apply keeps_makedirs
  | |- keeps _ (token_bytes _) => apply keeps_token_bytes
  | |- keeps _ (open_w _) => apply keeps_open_w; exact I
  | |- keeps _ (write _ _) => apply keeps_write; exact I
  | |- keeps _ (try_except _ _ _) => apply keeps_try
  | |- keeps _ (bind _ _) => apply keeps_bind; [|intros ?]
  | |- keeps _ (if ?b then _ else _) => destruct b
  | |- keeps _ (match ?x with _ => _ end) => destruct x
  end.

Ltac keeps_all := repeat keeps_step.

Lemma keeps_list_rows p users_config clients :
  forall i, keeps p (XrayConfig.list_rows users_config i clients).
Proof.
  induction clients as [|c clients IH]; intros i; cbn [XrayConfig.list_rows].
  - apply keeps_ret.
  - unfold UsersConfig.__getitem__. keeps_all. apply IH.
Qed.

Lemma keeps_list p self : keeps p (XrayConfig.list self).
Proof.
  unfold XrayConfig.list, UsersConfig.__init__. keeps_all. apply keeps_list_rows.
Qed.

Lemma keeps_xray_init p : keeps p XrayConfig.__init__.
Proof. unfold XrayConfig.__init__. keeps_all. Qed.

Lemma keeps_users_init p : keeps p UsersConfig.__init__.
Proof. unfold UsersConfig.__init__. keeps_all. Qed.

Lemma keeps_get p self n : keeps p (XrayConfig.get self n).
Proof. unfold XrayConfig.get. keeps_all. Qed.

Lemma keeps_path p self : keeps p (XrayConfig.path self).
Proof. unfold XrayConfig.path. keeps_all. Qed.

Lemma keeps_count p self : keeps p (XrayConfig.count self).
Proof. unfold XrayConfig.count. keeps_all. Qed.

Lemma keeps_sequence_number p text : keeps p (sequence_number text).
Proof. unfold sequence_number. keeps_all. Qed.

Lemma keeps_xray_save p self : other_file p XRAY_CONFIG_PATH -> keeps p (XrayConfig.save self).
Proof.
  intros H. unfold XrayConfig.save.
  repeat (apply keeps_bind; [|intros ?]);
    first [apply keeps_open_w; exact H | apply keeps_write; exact H].
Qed.

Lemma keeps_users_save p config :
  other_file p USERS_CONFIG_PATH -> keeps p (UsersConfig.save config).
Proof.
  intros H. unfold UsersConfig.save.
  repeat (apply keeps_bind; [|intros ?]);
    first [apply keeps_open_w; exact H | apply keeps_write; exact H].
Qed.

Ltac keeps_cmd :=
  repeat match goal with
         | |- keeps _ (XrayConfig.list _) => apply keeps_list
         | |- keeps _ XrayConfig.__init__ => apply keeps_xray_init
         | |- keeps _ UsersConfig.__init__ => apply keeps_users_init
         | |- keeps _ (XrayConfig.get _ _) => apply keeps_get
         | |- keeps _ (XrayConfig.path _) => apply keeps_path
         | |- keeps _ (XrayConfig.count _) => apply keeps_count
         | |- keeps _ (sequence_number _) => apply keeps_sequence_number
         | |- keeps _ (XrayConfig.save _) => apply keeps_xray_save; assumption || exact I
         | |- keeps _ (UsersConfig.save _) => apply keeps_users_save; assumption || exact I
         | _ => keeps_step
         end.

(** [connstr] and [client list] only read: however they end (normally,
    with an error message or with an exception), with whatever is on disk
    and whatever is typed, every file is afterwards as it was before. *)
Theorem read_only_commands (w : world) (p : path) :
  (forall uuid_arg, files (snd (connstr uuid_arg w)) p = files w p)
  /\ files (snd (client "list" w)) p = files w p.
Proof.
  split.
  - intros uuid_arg. revert w.
    change (keeps p (connstr uuid_arg)). unfold connstr. keeps_cmd.
  - revert w. change (keeps p (client "list")). unfold client.
    change (String.eqb "list" "add") with false.
    change (String.eqb "list" "list") with true. run. keeps_cmd.
Qed.

(** [client], whatever the action and however it ends, leaves the Caddy
    config and the templates as they are; [generate], however it ends,
    leaves the templates as they are. *)
Theorem commands_spare_files (w : world) :
  (forall action, files (snd (client action w)) CADDY_CONFIG_PATH
                  = files w CADDY_CONFIG_PATH)
  /\ (forall action transport name,
        files (snd (client action w)) (TEMPLATE transport name)
        = files w (TEMPLATE transport name))
  /\ (forall domain transport t name,
        files (snd (generate domain transport w)) (TEMPLATE t name)
        = files w (TEMPLATE t name)).
Proof.
  assert (Hclient : forall p action,
            other_file p USERS_CONFIG_PATH -> other_file p XRAY_CONFIG_PATH ->
            keeps p (client action)).
  { intros p action Hu Hx. unfold client, XrayConfig.add, XrayConfig.remove, uuid4,
      UsersConfig.__setitem__, UsersConfig.__delitem__.
    keeps_cmd. }
  split; [|split].
  - intros action. apply (Hclient CADDY_CONFIG_PATH action); exact I.
  - intros action transport name. apply (Hclient (TEMPLATE transport name) action); exact I.
  - intros domain transport t name. revert w.
    change (keeps (TEMPLATE t name) (generate domain transport)).
    unfold generate, token_urlsafe. keeps_cmd.
Qed.

(** ** [connstr] and the users config *)






